(** * Briefcase: subprocess wrapper, publish command and linuxdeploy upgrade

  A shallow embedding of

  - [briefcase/integrations/subprocess.py] (class [Subprocess]),
  - [briefcase/commands/publish.py] (class [PublishCommand]),
  - the upgrade flow of [briefcase/integrations/linuxdeploy.py], which is
    exercised by [tests/integrations/linuxdeploy/test_LinuxDeploy__upgrade.py],

  together with the properties of these programs.

  Python code that raises and mutates is written in a state-and-exception
  monad: a computation takes the state of the world and gives back either a
  value or a raised exception, and the state it leaves behind. *)

From Stdlib Require Import ZArith Ascii String List Permutation.
From stdpp Require Import base option strings list gmap pretty sorting.

Set Default Proof Using "Type".

(** ** The Python runtime: exceptions, values, strings, dictionaries *)

Module Py.

(** *** Computations that may raise *)

Inductive result (E A : Type) : Type :=
| Ok (a : A)
| Raise (e : E).
Arguments Ok {E A} a.
Arguments Raise {E A} e.

(** A statement run in state [S]: the state is kept when an exception is
    raised (what was logged before the [raise] stays logged). *)
Definition M (E S A : Type) : Type := S -> result E A * S.

Definition ret {E S A} (a : A) : M E S A := fun s => (Ok a, s).

Definition bind {E S A B} (m : M E S A) (k : A -> M E S B) : M E S B :=
  fun s =>
    match m s with
    | (Ok a, s') => k a s'
    | (Raise e, s') => (Raise e, s')
    end.

Definition raise {E S A} (e : E) : M E S A := fun s => (Raise e, s).

Definition gets {E S A} (f : S -> A) : M E S A := fun s => (Ok (f s), s).

Definition modify {E S} (f : S -> S) : M E S unit := fun s => (Ok tt, f s).

(** [try: body except <handled>: handler] *)
Definition try_except {E S A} (body : M E S A)
    (handler : E -> option (M E S A)) : M E S A :=
  fun s =>
    match body s with
    | (Ok a, s') => (Ok a, s')
    | (Raise e, s') =>
        match handler e with
        | Some h => h s'
        | None => (Raise e, s')
        end
    end.

(** [for x in xs: body x] *)
Fixpoint for_each {E S A} (xs : list A) (body : A -> M E S unit) : M E S unit :=
  match xs with
  | [] => ret tt
  | x :: xs' => bind (body x) (fun _ => for_each xs' body)
  end.

Declare Scope py_scope.
Delimit Scope py_scope with py.
Notation "x <- c1 ;; c2" := (bind c1 (fun x => c2))
  (at level 100, c1 at next level, right associativity) : py_scope.
Notation "c1 ;; c2" := (bind c1 (fun _ => c2))
  (at level 100, right associativity) : py_scope.

(** *** Characters that have no literal *)

Definition tab : ascii := ascii_of_nat 9.
Definition lf : ascii := ascii_of_nat 10.
Definition cr : ascii := ascii_of_nat 13.
Definition dquote : ascii := ascii_of_nat 34.
Definition squote : ascii := ascii_of_nat 39.
Definition backslash : ascii := ascii_of_nat 92.

Definition chr (c : ascii) : string := String c EmptyString.

(** *** Values

    The values that reach the wrapper as command arguments, as a working
    directory or as captured output.  A text string is a sequence of code
    points below 256; [VPath p] is a [pathlib] path whose string form is
    [p]. *)
Inductive pyval : Type :=
| VStr (s : string)
| VInt (n : Z)
| VPath (p : string)
| VBytes (b : string).

#[global] Instance pyval_eq_dec : EqDecision pyval.
Proof. solve_decision. Defined.

(** [bool(v)] *)
Definition truthy (v : pyval) : bool :=
  match v with
  | VStr s => negb (String.eqb s "")
  | VInt n => negb (Z.eqb n 0)
  | VPath _ => true
  | VBytes b => negb (String.eqb b "")
  end.

Definition hex_digit (n : N) : ascii :=
  (if n <? 10 then ascii_of_N (48 + n) else ascii_of_N (87 + n))%N.

Fixpoint contains (c : ascii) (s : string) : bool :=
  match s with
  | EmptyString => false
  | String a s' => Ascii.eqb a c || contains c s'
  end.

(** One byte of [repr(b'...')] written between quotes [q]. *)
Definition bytes_repr_char (q c : ascii) : string :=
  if Ascii.eqb c q || Ascii.eqb c backslash then String backslash (chr c)
  else if Ascii.eqb c tab then String backslash "t"
  else if Ascii.eqb c lf then String backslash "n"
  else if Ascii.eqb c cr then String backslash "r"
  else if (N_of_ascii c <? 32)%N || (127 <=? N_of_ascii c)%N then
    String backslash
      (String "x" (String (hex_digit (N_of_ascii c / 16))
                          (chr (hex_digit (N_of_ascii c mod 16)))))
  else chr c.

Fixpoint bytes_repr_body (q : ascii) (b : string) : string :=
  match b with
  | EmptyString => EmptyString
  | String c b' => bytes_repr_char q c +:+ bytes_repr_body q b'
  end.

(** [repr(b)] for a bytes object: single quotes unless the bytes hold a
    single quote and no double quote. *)
Definition bytes_repr (b : string) : string :=
  let q := if contains squote b && negb (contains dquote b)
           then dquote else squote in
  String "b" (String q (bytes_repr_body q b +:+ chr q)).

(** [str(v)] *)
Definition py_str (v : pyval) : string :=
  match v with
  | VStr s => s
  | VInt n => pretty n
  | VPath p => p
  | VBytes b => bytes_repr b
  end.

(** *** [shlex.quote] *)

(** The characters outside [[^\w@%+=:,./-]] with [re.ASCII]. *)
Definition shlex_safe (c : ascii) : bool :=
  let n := N_of_ascii c in
  ((48 <=? n) && (n <=? 57) || (65 <=? n) && (n <=? 90)
   || (97 <=? n) && (n <=? 122))%N
  || contains c "_@%+=:,./-".

Fixpoint all_safe (s : string) : bool :=
  match s with
  | EmptyString => true
  | String c s' => shlex_safe c && all_safe s'
  end.

(** [s.replace("'", "'\"'\"'")] *)
Fixpoint escape_squotes (s : string) : string :=
  match s with
  | EmptyString => EmptyString
  | String c s' =>
      if Ascii.eqb c squote
      then String squote (String dquote (String squote
             (String dquote (String squote (escape_squotes s')))))
      else String c (escape_squotes s')
  end.

Definition shlex_quote (s : string) : string :=
  if String.eqb s "" then String squote (chr squote)
  else if all_safe s then s
  else String squote (escape_squotes s +:+ chr squote).

(** *** [str.splitlines] *)

(** Line boundaries among the code points below 256. *)
Definition is_linebreak (c : ascii) : bool :=
  let n := N_of_ascii c in
  ((n =? 10) || (n =? 11) || (n =? 12) || (n =? 13)
   || (n =? 28) || (n =? 29) || (n =? 30) || (n =? 133))%N.

(** [line] is the text since the last boundary; [after_cr] says that the
    last character was a carriage return, which swallows a line feed. *)
Fixpoint splitlines_from (line : string) (after_cr : bool) (s : string)
    : list string :=
  match s with
  | EmptyString => if String.eqb line "" then [] else [line]
  | String c s' =>
      if after_cr && Ascii.eqb c lf then splitlines_from line false s'
      else if is_linebreak c then
        line :: splitlines_from "" (Ascii.eqb c cr) s'
      else splitlines_from (line +:+ chr c) false s'
  end.

Definition splitlines (s : string) : list string := splitlines_from "" false s.

(** *** Dictionaries from text to text

    A [dict] keeps its entries in insertion order; its keys are distinct. *)
Definition dict : Type := list (string * string).

Definition dict_wf (d : dict) : Prop := NoDup d.*1.

Fixpoint dict_get (k : string) (d : dict) : option string :=
  match d with
  | [] => None
  | (k', v) :: d' => if decide (k' = k) then Some v else dict_get k d'
  end.

(** [d[k] = v]: an existing key keeps its place, a new one goes last. *)
Fixpoint dict_setitem (k v : string) (d : dict) : dict :=
  match d with
  | [] => [(k, v)]
  | (k', v') :: d' =>
      if decide (k' = k) then (k, v) :: d' else (k', v') :: dict_setitem k v d'
  end.

(** [d.update(other)] *)
Definition dict_update (d other : dict) : dict :=
  fold_left (fun acc kv => dict_setitem kv.1 kv.2 acc) other d.

(** [bool(d)] *)
Definition dict_truthy (d : dict) : bool :=
  match d with [] => false | _ => true end.

End Py.

Import Py.

(** ** [briefcase/integrations/subprocess.py] *)

Module Subprocess.

(** *** The world the wrapper runs in *)

(** A reference to a mapping object: [os.environ] itself, or an object of
    the heap (an override built by a caller, or a copy made here). *)
Inductive ref : Type :=
| REnviron
| RObj (n : nat).

#[global] Instance ref_eq_dec : EqDecision ref.
Proof. solve_decision. Defined.

(** The keyword arguments of a call: [env], [cwd], and everything else,
    which is passed through untouched. *)
Record kwargs : Type := Kwargs {
  kw_env : option ref;
  kw_cwd : option pyval;
  kw_other : gmap string pyval
}.

(** What the [subprocess] module is handed: the argument vector and the
    keyword arguments, the environment read at the time of the call. *)
Record request : Type := Request {
  rq_args : list string;
  rq_env : option dict;
  rq_cwd : option pyval;
  rq_other : gmap string pyval
}.

Inductive method : Type := MRun | MCheckOutput | MPopen.

#[global] Instance method_eq_dec : EqDecision method.
Proof. solve_decision. Defined.

(** [subprocess.CompletedProcess] *)
Record CompletedProcess : Type := Completed {
  cp_args : list string;
  returncode : Z;
  stdout : option pyval;
  stderr : option pyval
}.

(** A [subprocess.Popen] object, still running. *)
Record PopenHandle : Type := Handle {
  pid : nat;
  popen_args : list string
}.

(** What can be raised.  The first four are raised by the [subprocess]
    module; [InvalidReference] is the outcome of following a reference that
    names no object, which no Python program can hold. *)
Inductive exn : Type :=
| CalledProcessError (code : Z) (output : option pyval)
| TimeoutExpired (output : option pyval)
| OSError (errno : Z) (strerror : string)
| ValueError (msg : string)
| InvalidReference.

(** The [subprocess] module held in [self._subprocess]. *)
Record subprocess_module : Type := SubprocessModule {
  sp_run : request -> result exn CompletedProcess;
  sp_check_output : request -> result exn pyval;
  sp_Popen : request -> result exn PopenHandle
}.

Record world : Type := World {
  os_environ : dict;               (* self.command.os.environ *)
  heap : list dict;                (* the other mapping objects *)
  debug : bool;                    (* logger.isEnabledFor(logging.DEBUG) *)
  log : list string;               (* the records the logger has emitted *)
  calls : list (method * request)  (* the calls made to self._subprocess *)
}.

Definition set_heap (h : list dict) (w : world) : world :=
  World (os_environ w) h (debug w) (log w) (calls w).
Definition set_environ (e : dict) (w : world) : world :=
  World e (heap w) (debug w) (log w) (calls w).
Definition set_log (l : list string) (w : world) : world :=
  World (os_environ w) (heap w) (debug w) l (calls w).
Definition set_calls (c : list (method * request)) (w : world) : world :=
  World (os_environ w) (heap w) (debug w) (log w) c.

Abbreviation Cmd := (M exn world).
Open Scope py_scope.

(** *** Mapping objects *)

Definition deref (w : world) (r : ref) : option dict :=
  match r with
  | REnviron => Some (os_environ w)
  | RObj n => heap w !! n
  end.

Definition read (r : ref) : Cmd dict :=
  fun w => match deref w r with
           | Some d => (Ok d, w)
           | None => (Raise InvalidReference, w)
           end.

Definition write (r : ref) (d : dict) : Cmd unit :=
  fun w => match r with
           | REnviron => (Ok tt, set_environ d w)
           | RObj n =>
               if decide (n < length (heap w))
               then (Ok tt, set_heap (<[n := d]> (heap w)) w)
               else (Raise InvalidReference, w)
           end.

(** [r.copy()]: a new object with the entries of [r]. *)
Definition copy (r : ref) : Cmd ref :=
  d <- read r;;
  h <- gets heap;;
  modify (set_heap (h ++ [d]));;
  ret (RObj (length h)).

(** [r.update(other)]: [r] is changed in place. *)
Definition update (r other : ref) : Cmd unit :=
  extra <- read other;;
  d <- read r;;
  write r (dict_update d extra).

(** *** The logger *)

(** [logger.debug(msg)] *)
Definition logger_debug (msg : string) : Cmd unit :=
  fun w => (Ok tt, if debug w then set_log (log w ++ [msg]) w else w).

(** *** The class *)

Section Subprocess.

Variable _subprocess : subprocess_module.

(** The native subprocess environment is ready to use. *)
Definition prepare : Cmd unit := ret tt.

Definition final_kwargs (kw : kwargs) : Cmd kwargs :=
  kw <- match kw_env kw with
        | Some extra_env =>
            new_env <- copy REnviron;;
            update new_env extra_env;;
            ret (Kwargs (Some new_env) (kw_cwd kw) (kw_other kw))
        | None => ret kw      (* except KeyError: pass *)
        end;;
  match kw_cwd kw with
  | Some cwd => ret (Kwargs (kw_env kw) (Some (VStr (py_str cwd))) (kw_other kw))
  | None => ret kw            (* except KeyError: pass *)
  end.

Definition _log_command (args : list pyval) : Cmd unit :=
  logger_debug "";;
  logger_debug "Running Command:";;
  logger_debug
    (String tab (String.concat " " (map (fun arg => shlex_quote (py_str arg)) args))).

Definition _log_environment (env : option ref) : Cmd unit :=
  enabled <- gets debug;;
  if negb enabled then ret tt
  else
    (* env = env or self.command.os.environ *)
    env <- match env with
           | Some r =>
               d <- read r;;
               ret (if dict_truthy d then r else REnviron)
           | None => ret REnviron
           end;;
    logger_debug "Environment:";;
    items <- read env;;
    for_each items (fun kv =>
      logger_debug (String tab (kv.1 +:+ "=" +:+ kv.2))).

Definition _log_output (output : pyval) : Cmd unit :=
  if truthy output then
    logger_debug "Command Output:";;
    for_each (splitlines (py_str output)) (fun line =>
      logger_debug (String tab line))
  else ret tt.

Definition _log_return_code (return_code : Z) : Cmd unit :=
  logger_debug ("Return code: " +:+ pretty return_code).

(** [self._subprocess.<m>(argv, **kw)]: the call is recorded, with the
    environment as the mapping holds it at that moment. *)
Definition call {A} (m : method) (f : request -> result exn A)
    (argv : list string) (kw : kwargs) : Cmd A :=
  env <- match kw_env kw with
         | Some r => d <- read r;; ret (Some d)
         | None => ret None
         end;;
  let rq := Request argv env (kw_cwd kw) (kw_other kw) in
  c <- gets calls;;
  modify (set_calls (c ++ [(m, rq)]));;
  match f rq with
  | Ok a => ret a
  | Raise e => raise e
  end.

Definition run (args : list pyval) (kw : kwargs) : Cmd CompletedProcess :=
  _log_command args;;
  _log_environment (kw_env kw);;
  logger_debug "Command Output:";;
  let argv := map py_str args in
  final <- final_kwargs kw;;
  r <- call MRun (sp_run _subprocess) argv final;;
  _log_return_code (returncode r);;
  ret r.

Definition check_output (args : list pyval) (kw : kwargs) : Cmd pyval :=
  _log_command args;;
  _log_environment (kw_env kw);;
  let argv := map py_str args in
  final <- final_kwargs kw;;
  r <- call MCheckOutput (sp_check_output _subprocess) argv final;;
  _log_output r;;
  ret r.

Definition Popen (args : list pyval) (kw : kwargs) : Cmd PopenHandle :=
  _log_command args;;
  _log_environment (kw_env kw);;
  let argv := map py_str args in
  final <- final_kwargs kw;;
  call MPopen (sp_Popen _subprocess) argv final.

End Subprocess.

End Subprocess.


(** ** The upgrade of linuxdeploy

    [briefcase/integrations/linuxdeploy.py] is known through its tests and
    its description.  The flow below follows the description of the upgrade
    (install path, delete if present, download, chmod, one translated error)
    and the collaborators the tests mock: [command.host_arch],
    [command.tools_path], [command.download_url] and [command.os.chmod]. *)

Module LinuxDeploy.

(** Modelled from the spec: the errors of the upgrade, the transport error of
    the download and the domain error it is translated to, which carries
    the tool and the URL that failed. *)
Inductive exn : Type :=
| ConnectionError                             (* requests.exceptions.ConnectionError *)
| NetworkFailure (tool url : string)          (* briefcase.exceptions.NetworkFailure *)
| OtherError (name : string).

(** Modelled from the spec: what the collaborators were asked to do, in
    order (the calls the tests assert on). *)
Inductive event : Type :=
| Unlink (path : string)
| Download (url download_path : string)
| Chmod (path : string) (mode : Z).

#[global] Instance event_eq_dec : EqDecision event.
Proof. solve_decision. Defined.

(** Modelled from the spec: the file system and the calls made so far. *)
Record world : Type := World {
  files : gset string;       (* the paths at which a file exists *)
  events : list event
}.

Abbreviation Cmd := (M exn world).
Open Scope py_scope.

(** Modelled from the spec: a collaborator is asked to do [e]. *)
Definition emit (e : event) : Cmd unit :=
  modify (fun w => World (files w) (events w ++ [e])).

(** Modelled from the spec: the file existence check of the OS facility. *)
Definition exists_ (path : string) : Cmd bool :=
  gets (fun w => bool_decide (path ∈ files w)).

(** Modelled from the spec: the file deletion of the OS facility. *)
Definition unlink (path : string) : Cmd unit :=
  emit (Unlink path);;
  modify (fun w => World (files w ∖ {[path]}) (events w)).

(** Modelled from the spec: the permission mutation of the OS facility, which
    the tests mock ([command.os.chmod]). *)
Definition chmod (path : string) (mode : Z) : Cmd unit :=
  emit (Chmod path mode).

Section LinuxDeploy.

(** The command the wrapper is built on. *)
Variable host_arch : string.
Variable tools_path : string.

(** Modelled from the spec: the download operation, an external collaborator
    that takes a URL and a destination directory and either returns the path
    of the downloaded artifact, once the file is fully retrieved, or raises;
    [download_url url dir] is what it does for that request. *)
Variable download_url : string -> string -> result exn string.

(** Modelled from the spec: a call of the download operation; the request is
    recorded, and the artifact exists once it has been retrieved. *)
Definition download (url download_path : string) : Cmd string :=
  emit (Download url download_path);;
  match download_url url download_path with
  | Ok artifact =>
      modify (fun w => World (files w ∪ {[artifact]}) (events w));;
      ret artifact
  | Raise e => raise e
  end.

(** Modelled from the spec: the file name [<tool>-<arch>.AppImage], which the
    URL and the local path share. *)
Definition appimage_name (tool : string) : string :=
  tool +:+ "-" +:+ host_arch +:+ ".AppImage".

(** Modelled from the spec: the fixed URL template
    [https://github.com/<tool>/<tool>/releases/download/continuous/<tool>-<arch>.AppImage]. *)
Definition download_url_of (tool : string) : string :=
  "https://github.com/" +:+ tool +:+ "/" +:+ tool
    +:+ "/releases/download/continuous/" +:+ appimage_name tool.

(** Modelled from the spec: the local artifact path
    [<tools_directory>/<tool>-<arch>.AppImage]. *)
Definition appimage_path (tool : string) : string :=
  tools_path +:+ "/" +:+ appimage_name tool.

(** Modelled from the spec: [upgrade()], the four steps of the upgrade and its
    failure semantics.  The path is computed; a file found there is deleted;
    the download is requested for the tools directory; a connection error of
    the download is caught and raised again as [NetworkFailure], any other
    error propagates; the downloaded artifact is made executable with mode
    [0o755]. *)
Definition upgrade_tool (tool : string) : Cmd unit :=
  let path := appimage_path tool in
  present <- exists_ path;;
  (if present then unlink path else ret tt);;
  artifact <- try_except (download (download_url_of tool) tools_path)
                (fun e => match e with
                          | ConnectionError =>
                              Some (raise (NetworkFailure tool (download_url_of tool)))
                          | _ => None
                          end);;
  chmod artifact 493.

(** Modelled from the spec: [LinuxDeploy.upgrade()], the upgrade of the tool
    named [linuxdeploy]. *)
Definition upgrade : Cmd unit := upgrade_tool "linuxdeploy".

End LinuxDeploy.

End LinuxDeploy.

(** ** [briefcase/commands/publish.py] *)

Module Publish.

Inductive exn : Type :=
| BriefcaseCommandError (msg : string)
| OtherError (name : string).

Record world : Type := World {
  files : gset string;      (* the paths at which a file exists *)
  stdout : list string      (* the lines printed *)
}.

Abbreviation Cmd := (M exn world).
Open Scope py_scope.

Definition print (line : string) : Cmd unit :=
  modify (fun w => World (files w) (stdout w ++ [line])).

Definition exists_ (path : string) : Cmd bool :=
  gets (fun w => bool_decide (path ∈ files w)).

(** The order of [sorted] on the items of a dictionary: the keys are compared,
    and they are distinct. *)
Definition item_le {A} (x y : string * A) : Prop := String.le x.1 y.1.

#[global] Instance item_le_dec {A} : RelDecision (@item_le A).
Proof. intros x y. unfold item_le. apply _. Defined.

Definition sorted {A} (items : list (string * A)) : list (string * A) :=
  merge_sort item_le items.

Section PublishCommand.

(** [BaseConfig] and its [name]; [binary_path] and [verify_tools] belong to
    [BaseCommand] and to the platform's backend. *)
Variable BaseConfig : Type.
Variable name : BaseConfig -> string.
Variable binary_path : BaseConfig -> string.
Variable verify_tools : Cmd unit.

(** [self.apps], in insertion order, and [self.options.channel]. *)
Variable apps : list (string * BaseConfig).
Variable channel : string.

Definition publication_channels : list string := ["s3"].

Definition default_publication_channel : string := "s3".

Definition publish_app (app : BaseConfig) (channel : string) : Cmd unit :=
  print ("TODO: Publish " +:+ name app +:+ " to " +:+ channel).

Definition not_built (app_name : string) : exn :=
  BriefcaseCommandError
    ("Application " +:+ app_name +:+ " has not been built. "
       +:+ "Build (and test!) the app before publishing.").

Definition __call__ : Cmd unit :=
  verify_tools;;
  (* Check the apps have been built first. *)
  for_each apps (fun item =>
    let app_name := item.1 in
    let app := item.2 in
    let binary_file := binary_path app in
    built <- exists_ binary_file;;
    if negb built then raise (not_built app_name) else ret tt);;
  (* Then publish them all to the selected channel. *)
  for_each (sorted apps) (fun item =>
    publish_app item.2 channel).

End PublishCommand.

Arguments publish_app {BaseConfig} name app channel.
Arguments __call__ {BaseConfig} name binary_path verify_tools apps channel.

End Publish.


(** * Properties *)

(** ** Dictionaries and the monad *)

Module PyFacts.

Lemma dict_get_None (k : string) (d : dict) :
  k ∉ d.*1 -> dict_get k d = None.
Proof.
  induction d as [|[k' v] d IH]; simpl; [done|].
  intros Hk. apply not_elem_of_cons in Hk as [Hne Hk].
  destruct (decide (k' = k)); [congruence|auto].
Qed.

Lemma dict_get_setitem (k k' v : string) (d : dict) :
  dict_get k (dict_setitem k' v d)
  = if decide (k' = k) then Some v else dict_get k d.
Proof.
  induction d as [|[k0 v0] d IH]; simpl.
  - destruct (decide (k' = k)); done.
  - destruct (decide (k0 = k')) as [->|Hne]; simpl.
    + destruct (decide (k' = k)); done.
    + rewrite IH. destruct (decide (k0 = k)) as [->|]; [|done].
      destruct (decide (k' = k)); congruence.
Qed.

Lemma dict_setitem_keys (k v : string) (d : dict) :
  (dict_setitem k v d).*1 = if decide (k ∈ d.*1) then d.*1 else d.*1 ++ [k].
Proof.
  induction d as [|[k0 v0] d IH]; csimpl; [done|].
  destruct (decide (k0 = k)) as [->|Hne]; csimpl.
  - rewrite decide_True; [done|]. left.
  - rewrite IH. destruct (decide (k ∈ d.*1)) as [Hin|Hin].
    + rewrite decide_True; [done|]. by right.
    + rewrite decide_False; [done|].
      intros [?|?]%elem_of_cons; congruence.
Qed.

Lemma dict_setitem_wf (k v : string) (d : dict) :
  dict_wf d -> dict_wf (dict_setitem k v d).
Proof.
  unfold dict_wf. intros Hd. rewrite dict_setitem_keys.
  destruct (decide (k ∈ d.*1)); [done|].
  apply NoDup_app. split_and!; [done| |apply NoDup_singleton].
  intros x Hx ->%list_elem_of_singleton. done.
Qed.

Lemma dict_update_wf (d other : dict) :
  dict_wf d -> dict_wf (dict_update d other).
Proof.
  unfold dict_update. revert d.
  induction other as [|[k v] other IH]; intros d Hd; simpl; [done|].
  apply IH, dict_setitem_wf, Hd.
Qed.

(** Reading a key of [d.update(other)]: the entry of [other] when it has one,
    the entry of [d] otherwise. *)
Lemma dict_get_update (k : string) (d other : dict) :
  dict_wf other ->
  dict_get k (dict_update d other)
  = match dict_get k other with
    | Some v => Some v
    | None => dict_get k d
    end.
Proof.
  unfold dict_update, dict_wf. revert d.
  induction other as [|[k' v'] other IH]; intros d Hwf; simpl; [done|].
  apply NoDup_cons in Hwf as [Hk' Hwf].
  rewrite IH by done. rewrite dict_get_setitem.
  destruct (decide (k' = k)) as [->|]; [|done].
  by rewrite dict_get_None.
Qed.

Section Monad.
Context {E S : Type}.

Lemma bind_ok {A B} (m : M E S A) (k : A -> M E S B) s a s' :
  m s = (Ok a, s') -> bind m k s = k a s'.
Proof. unfold bind. by intros ->. Qed.

Lemma bind_raise {A B} (m : M E S A) (k : A -> M E S B) s e s' :
  m s = (Raise e, s') -> bind m k s = (Raise e, s').
Proof. unfold bind. by intros ->. Qed.

(** A relation between the state before and the state after that every step
    of a computation keeps. *)
Definition preserves {A} (R : relation S) (m : M E S A) : Prop :=
  forall s, R s (m s).2.

Lemma preserves_ret {A} (R : relation S) `{!Reflexive R} (a : A) :
  preserves R (ret a).
Proof. intros s. simpl. reflexivity. Qed.

Lemma preserves_raise {A} (R : relation S) `{!Reflexive R} (e : E) :
  preserves R (raise (A:=A) e).
Proof. intros s. simpl. reflexivity. Qed.

Lemma preserves_gets {A} (R : relation S) `{!Reflexive R} (f : S -> A) :
  preserves R (gets f).
Proof. intros s. simpl. reflexivity. Qed.

Lemma preserves_bind {A B} (R : relation S) `{!Transitive R}
    (m : M E S A) (k : A -> M E S B) :
  preserves R m -> (forall a, preserves R (k a)) -> preserves R (bind m k).
Proof.
  intros Hm Hk s. unfold bind. specialize (Hm s).
  destruct (m s) as [[a|e] s']; simpl in *; [|done].
  etrans; [exact Hm|apply Hk].
Qed.

Lemma preserves_for_each {A} (R : relation S) `{!PreOrder R}
    (xs : list A) (body : A -> M E S unit) :
  (forall x, preserves R (body x)) -> preserves R (for_each xs body).
Proof.
  intros Hbody. induction xs as [|x xs IH]; simpl.
  - apply preserves_ret, _.
  - apply preserves_bind; [apply _|apply Hbody|intros _; exact IH].
Qed.

End Monad.

End PyFacts.


(** ** The subprocess wrapper *)

Module SubprocessFacts.
Import PyFacts Subprocess.

(** *** What a call logs and what it hands over *)

(** The records [lines] reach the log when debug logging is enabled. *)
Definition logged (lines : list string) (w : world) : world :=
  if debug w then set_log (log w ++ lines) w else w.

Definition command_lines (args : list pyval) : list string :=
  [ ""; "Running Command:";
    String tab (String.concat " " (map (fun arg => shlex_quote (py_str arg)) args)) ].

Definition environment_lines (d : dict) : list string :=
  "Environment:" :: map (fun kv => String tab (kv.1 +:+ "=" +:+ kv.2)) d.

Definition return_code_line (code : Z) : string :=
  "Return code: " +:+ pretty code.

Definition output_lines (output : pyval) : list string :=
  if truthy output
  then "Command Output:" :: map (String tab) (splitlines (py_str output))
  else [].

(** Every reference among the keyword arguments names an object. *)
Definition live (w : world) (kw : kwargs) : Prop :=
  match kw_env kw with
  | Some r => is_Some (deref w r)
  | None => True
  end.

(** The mapping whose entries [_log_environment] writes out. *)
Definition logged_environment (w : world) (kw : kwargs) : dict :=
  match kw_env kw ≫= deref w with
  | Some d => if dict_truthy d then d else os_environ w
  | None => os_environ w
  end.

(** The ambient environment updated with the override, when there is one. *)
Definition merged_environment (w : world) (kw : kwargs) : option dict :=
  match kw_env kw ≫= deref w with
  | Some d => Some (dict_update (os_environ w) d)
  | None => None
  end.

Definition final_request (w : world) (args : list pyval) (kw : kwargs) : request :=
  Request (map py_str args) (merged_environment w kw)
          (match kw_cwd kw with
           | Some cwd => Some (VStr (py_str cwd))
           | None => None
           end)
          (kw_other kw).

(** The copy of the environment that [final_kwargs] leaves on the heap. *)
Definition with_merged (w : world) (kw : kwargs) (base : world) : world :=
  match merged_environment w kw with
  | Some d => set_heap (heap w ++ [d]) base
  | None => base
  end.

(** The world when the [subprocess] module is called by method [m], after the
    records [lines] were handed to the logger. *)
Definition at_call (m : method) (lines : list string)
    (args : list pyval) (kw : kwargs) (w : world) : world :=
  set_calls (calls w ++ [(m, final_request w args kw)])
            (with_merged w kw (logged lines w)).

Definition prologue_run (w : world) (args : list pyval) (kw : kwargs) : list string :=
  command_lines args ++ environment_lines (logged_environment w kw)
    ++ ["Command Output:"].

Definition prologue (w : world) (args : list pyval) (kw : kwargs) : list string :=
  command_lines args ++ environment_lines (logged_environment w kw).

(** The lines a method added to the log. *)
Definition new_lines (before after : world) : list string :=
  drop (length (log before)) (log after).

Definition is_return_code_line (line : string) : bool :=
  String.prefix "Return code: " line.

(** The state a call leaves alone: the ambient environment and every mapping
    object that existed before. *)
Definition frame (w w' : world) : Prop :=
  os_environ w' = os_environ w
  /\ forall n d, heap w !! n = Some d -> heap w' !! n = Some d.

#[global] Instance frame_preorder : PreOrder frame.
Proof.
  split.
  - intros w. by split.
  - intros w1 w2 w3 [He1 Hh1] [He2 Hh2]. split; [congruence|auto].
Qed.

(** *** The logger *)

Lemma logged_nil w : logged [] w = w.
Proof. unfold logged. destruct w as [e h [] l c]; simpl; [|done]. by rewrite app_nil_r. Qed.

Lemma logged_app l1 l2 w : logged l2 (logged l1 w) = logged (l1 ++ l2) w.
Proof.
  unfold logged. destruct w as [e h [] l c]; simpl; [|done].
  unfold set_log; simpl. by rewrite app_assoc.
Qed.

Lemma logger_debug_eq msg w : logger_debug msg w = (Ok tt, logged [msg] w).
Proof. done. Qed.

Lemma for_each_logger_debug {A} (f : A -> string) (xs : list A) w :
  for_each xs (fun x => logger_debug (f x)) w = (Ok tt, logged (map f xs) w).
Proof.
  revert w. induction xs as [|x xs IH]; intros w; simpl.
  - by rewrite logged_nil.
  - erewrite bind_ok by apply logger_debug_eq.
    rewrite IH, logged_app. done.
Qed.

Lemma deref_logged l w r : deref (logged l w) r = deref w r.
Proof. unfold logged. by destruct w as [e h [] lg c], r. Qed.

Lemma debug_logged l w : debug (logged l w) = debug w.
Proof. unfold logged. by destruct w as [e h [] lg c]. Qed.

Lemma _log_command_eq args w :
  _log_command args w = (Ok tt, logged (command_lines args) w).
Proof.
  unfold _log_command.
  erewrite bind_ok by apply logger_debug_eq.
  erewrite bind_ok by apply logger_debug_eq.
  rewrite logger_debug_eq, !logged_app. done.
Qed.

Lemma _log_return_code_eq code w :
  _log_return_code code w = (Ok tt, logged [return_code_line code] w).
Proof. done. Qed.

Lemma _log_output_eq output w :
  _log_output output w = (Ok tt, logged (output_lines output) w).
Proof.
  unfold _log_output, output_lines. destruct (truthy output).
  - erewrite bind_ok by apply logger_debug_eq.
    rewrite for_each_logger_debug, logged_app. done.
  - by rewrite logged_nil.
Qed.

Lemma read_eq r d w : deref w r = Some d -> read r w = (Ok d, w).
Proof. unfold read. by intros ->. Qed.

Lemma os_environ_logged l w : os_environ (logged l w) = os_environ w.
Proof. unfold logged. by destruct w as [e h [] lg c]. Qed.

Lemma _log_environment_eq kw w :
  live w kw ->
  _log_environment (kw_env kw) w
  = (Ok tt, logged (environment_lines (logged_environment w kw)) w).
Proof.
  unfold live, _log_environment, logged_environment, environment_lines.
  intros Hlive.
  erewrite bind_ok by reflexivity.
  destruct (debug w) eqn:Hdebug; simpl negb; cbv iota.
  2:{ unfold logged. by rewrite Hdebug. }
  destruct (kw_env kw) as [r|]; simpl.
  - destruct Hlive as [d Hd]. rewrite Hd.
    erewrite bind_ok.
    2:{ erewrite bind_ok by (apply read_eq, Hd). reflexivity. }
    erewrite bind_ok by apply logger_debug_eq.
    destruct (dict_truthy d).
    + erewrite bind_ok by (apply read_eq; rewrite deref_logged; exact Hd).
      rewrite for_each_logger_debug, logged_app. done.
    + erewrite bind_ok by (apply read_eq; simpl; reflexivity).
      rewrite for_each_logger_debug, logged_app, os_environ_logged. done.
  - erewrite bind_ok by reflexivity.
    erewrite bind_ok by apply logger_debug_eq.
    erewrite bind_ok by (apply read_eq; simpl; reflexivity).
    rewrite for_each_logger_debug, logged_app, os_environ_logged. done.
Qed.

Lemma heap_logged l w : heap (logged l w) = heap w.
Proof. unfold logged. by destruct w as [e h [] lg c]. Qed.

Lemma calls_logged l w : calls (logged l w) = calls w.
Proof. unfold logged. by destruct w as [e h [] lg c]. Qed.

Lemma live_logged l w kw : live w kw -> live (logged l w) kw.
Proof. unfold live. destruct (kw_env kw); [|done]. by rewrite deref_logged. Qed.

Lemma merged_environment_logged l w kw :
  merged_environment (logged l w) kw = merged_environment w kw.
Proof.
  unfold merged_environment. destruct (kw_env kw) as [r|]; simpl; [|done].
  by rewrite deref_logged, os_environ_logged.
Qed.

Lemma logged_environment_logged l w kw :
  logged_environment (logged l w) kw = logged_environment w kw.
Proof.
  unfold logged_environment. destruct (kw_env kw) as [r|]; simpl.
  - by rewrite deref_logged, os_environ_logged.
  - by rewrite os_environ_logged.
Qed.

(** *** [final_kwargs] *)

(** The keyword arguments in their final form: [env] refers to the copy, which
    is the next object of the heap. *)
Definition final_kwargs_value (w : world) (kw : kwargs) : kwargs :=
  Kwargs (match kw_env kw with
          | Some _ => Some (RObj (length (heap w)))
          | None => None
          end)
         (match kw_cwd kw with
          | Some cwd => Some (VStr (py_str cwd))
          | None => None
          end)
         (kw_other kw).

Lemma final_kwargs_eq kw w :
  live w kw ->
  final_kwargs kw w = (Ok (final_kwargs_value w kw), with_merged w kw w).
Proof.
  unfold live, final_kwargs, final_kwargs_value, with_merged, merged_environment.
  intros Hlive. destruct kw as [[r|] cwd other]; simpl in *.
  - destruct Hlive as [d Hd]. rewrite Hd. simpl.
    erewrite bind_ok.
    2:{ erewrite bind_ok.
        2:{ unfold copy. erewrite bind_ok by (by apply read_eq).
            erewrite bind_ok by reflexivity.
            erewrite bind_ok by reflexivity. reflexivity. }
        erewrite bind_ok.
        2:{ unfold update.
            erewrite bind_ok.
            2:{ apply read_eq. destruct r as [|n]; simpl in *; [done|].
                by apply lookup_app_l_Some. }
            erewrite bind_ok.
            2:{ apply read_eq. simpl. by rewrite list_lookup_middle. }
            unfold write. simpl. rewrite decide_True.
            2:{ rewrite length_app. simpl. lia. }
            reflexivity. }
        reflexivity. }
    simpl. unfold set_heap. simpl.
    rewrite insert_app_r_alt, Nat.sub_diag by done. simpl.
    by destruct cwd.
  - erewrite bind_ok by reflexivity. by destruct cwd.
Qed.

Lemma call_eq {A} m (f : request -> result exn A) argv kw w env :
  match kw_env kw with
  | Some r => exists d, deref w r = Some d /\ env = Some d
  | None => env = None
  end ->
  call m f argv kw w
  = let rq := Request argv env (kw_cwd kw) (kw_other kw) in
    (f rq, set_calls (calls w ++ [(m, rq)]) w).
Proof.
  intros Henv. unfold call.
  erewrite bind_ok.
  2:{ destruct (kw_env kw) as [r|].
      - destruct Henv as (d & Hd & ->).
        erewrite bind_ok by (by apply read_eq). reflexivity.
      - subst env. reflexivity. }
  erewrite bind_ok by reflexivity.
  erewrite bind_ok by reflexivity.
  simpl. by destruct (f _).
Qed.

Lemma call_final_eq {A} m (f : request -> result exn A) args kw w l :
  live w kw ->
  call m f (map py_str args) (final_kwargs_value (logged l w) kw)
       (with_merged (logged l w) kw (logged l w))
  = (f (final_request w args kw), at_call m l args kw w).
Proof.
  intros Hlive. unfold at_call, final_request, with_merged.
  rewrite merged_environment_logged, heap_logged.
  erewrite call_eq with (env := merged_environment w kw).
  - simpl. f_equal. f_equal.
    unfold merged_environment.
    destruct (kw_env kw ≫= deref w); simpl; by rewrite calls_logged.
  - unfold live, merged_environment in *. simpl.
    destruct (kw_env kw) as [r|]; simpl; [|done].
    destruct Hlive as [d Hd]. rewrite Hd. simpl.
    eexists. split; [|done]. by rewrite heap_logged, list_lookup_middle.
Qed.

(** *** The three methods *)

Section Methods.
Variable sp : subprocess_module.

Lemma run_eq args kw w :
  live w kw ->
  run sp args kw w
  = let w' := at_call MRun (prologue_run w args kw) args kw w in
    match sp_run sp (final_request w args kw) with
    | Ok r => (Ok r, logged [return_code_line (returncode r)] w')
    | Raise e => (Raise e, w')
    end.
Proof.
  intros Hlive. unfold run, prologue_run.
  erewrite bind_ok by apply _log_command_eq.
  erewrite bind_ok by (apply _log_environment_eq, live_logged, Hlive).
  erewrite bind_ok by apply logger_debug_eq.
  rewrite !logged_app, logged_environment_logged.
  erewrite bind_ok by (apply final_kwargs_eq, live_logged, Hlive).
  pose proof (call_final_eq MRun (sp_run sp) args kw w
    (command_lines args ++ environment_lines (logged_environment w kw)
       ++ ["Command Output:"]) Hlive) as Hcall.
  destruct (sp_run sp (final_request w args kw)) as [r|e]; simpl.
  - erewrite bind_ok by exact Hcall.
    erewrite bind_ok by apply _log_return_code_eq. done.
  - erewrite bind_raise by exact Hcall. done.
Qed.

Lemma check_output_eq args kw w :
  live w kw ->
  check_output sp args kw w
  = let w' := at_call MCheckOutput (prologue w args kw) args kw w in
    match sp_check_output sp (final_request w args kw) with
    | Ok r => (Ok r, logged (output_lines r) w')
    | Raise e => (Raise e, w')
    end.
Proof.
  intros Hlive. unfold check_output, prologue.
  erewrite bind_ok by apply _log_command_eq.
  erewrite bind_ok by (apply _log_environment_eq, live_logged, Hlive).
  rewrite !logged_app, logged_environment_logged.
  erewrite bind_ok by (apply final_kwargs_eq, live_logged, Hlive).
  pose proof (call_final_eq MCheckOutput (sp_check_output sp) args kw w
    (command_lines args ++ environment_lines (logged_environment w kw))
    Hlive) as Hcall.
  destruct (sp_check_output sp (final_request w args kw)) as [r|e]; simpl.
  - erewrite bind_ok by exact Hcall.
    erewrite bind_ok by apply _log_output_eq. done.
  - erewrite bind_raise by exact Hcall. done.
Qed.

Lemma Popen_eq args kw w :
  live w kw ->
  Popen sp args kw w
  = (sp_Popen sp (final_request w args kw),
     at_call MPopen (prologue w args kw) args kw w).
Proof.
  intros Hlive. unfold Popen, prologue.
  erewrite bind_ok by apply _log_command_eq.
  erewrite bind_ok by (apply _log_environment_eq, live_logged, Hlive).
  rewrite !logged_app, logged_environment_logged.
  erewrite bind_ok by (apply final_kwargs_eq, live_logged, Hlive).
  apply call_final_eq, Hlive.
Qed.

(** The world a method leaves, and what it raised, whatever it returns. *)
Definition world_after (m : method) args kw w : world :=
  match m with
  | MRun => (run sp args kw w).2
  | MCheckOutput => (check_output sp args kw w).2
  | MPopen => (Popen sp args kw w).2
  end.

Definition raised_by {A} (r : result exn A) : option exn :=
  match r with
  | Ok _ => None
  | Raise e => Some e
  end.

Definition raised (m : method) args kw w : option exn :=
  match m with
  | MRun => raised_by (run sp args kw w).1
  | MCheckOutput => raised_by (check_output sp args kw w).1
  | MPopen => raised_by (Popen sp args kw w).1
  end.

(** What the [subprocess] module answers to a request made by [m]. *)
Definition answer (m : method) (rq : request) : option exn :=
  match m with
  | MRun => raised_by (sp_run sp rq)
  | MCheckOutput => raised_by (sp_check_output sp rq)
  | MPopen => raised_by (sp_Popen sp rq)
  end.

Lemma calls_at_call m l args kw w :
  calls (at_call m l args kw w) = calls w ++ [(m, final_request w args kw)].
Proof. done. Qed.

Lemma log_at_call m l args kw w :
  log (at_call m l args kw w) = log (logged l w).
Proof. unfold at_call, with_merged. by destruct (merged_environment w kw). Qed.

Lemma debug_at_call m l args kw w :
  debug (at_call m l args kw w) = debug w.
Proof.
  unfold at_call, with_merged.
  destruct (merged_environment w kw); simpl; apply debug_logged.
Qed.

Lemma log_logged l w :
  log (logged l w) = log w ++ (if debug w then l else []).
Proof.
  unfold logged. destruct (debug w); simpl; [done|]. by rewrite app_nil_r.
Qed.

(** Each method calls the [subprocess] module once, with [final_request]. *)
Lemma calls_world_after m args kw w :
  live w kw ->
  calls (world_after m args kw w) = calls w ++ [(m, final_request w args kw)].
Proof.
  intros Hlive. destruct m; simpl.
  - rewrite run_eq by done. simpl.
    destruct (sp_run sp _); simpl; by rewrite ?calls_logged.
  - rewrite check_output_eq by done. simpl.
    destruct (sp_check_output sp _); simpl; by rewrite ?calls_logged.
  - by rewrite Popen_eq.
Qed.

Lemma raised_world_after m args kw w :
  live w kw ->
  raised m args kw w = answer m (final_request w args kw).
Proof.
  intros Hlive. destruct m; simpl.
  - rewrite run_eq by done. simpl. by destruct (sp_run sp _).
  - rewrite check_output_eq by done. simpl. by destruct (sp_check_output sp _).
  - by rewrite Popen_eq.
Qed.

(** With debug logging enabled, the environment lines that [run] logs for a
    non-empty override are the entries of the override. *)
Lemma run_logs_override args kw w r d :
  kw_env kw = Some r ->
  deref w r = Some d ->
  d <> [] ->
  debug w = true ->
  exists rest,
    new_lines w (run sp args kw w).2
    = command_lines args ++ environment_lines d ++ rest.
Proof.
  intros Henv Hd Hne Hdebug.
  assert (live w kw) as Hlive by (unfold live; rewrite Henv; eauto).
  assert (logged_environment w kw = d) as Hlogged.
  { unfold logged_environment. rewrite Henv. simpl. rewrite Hd. by destruct d. }
  rewrite run_eq by done. cbv zeta. unfold new_lines, prologue_run.
  rewrite Hlogged.
  destruct (sp_run sp (final_request w args kw)) as [res|e]; cbn [snd].
  - rewrite log_logged, debug_at_call, log_at_call, log_logged, Hdebug.
    rewrite <-app_assoc, drop_app_length, <-!app_assoc. eauto.
  - rewrite log_at_call, log_logged, Hdebug, drop_app_length. eauto.
Qed.

(** *** The ambient environment is left alone *)

Lemma frame_logger_debug msg : preserves frame (logger_debug msg).
Proof. intros w. unfold logger_debug. simpl. by destruct (debug w). Qed.

Lemma frame_read r : preserves frame (read r).
Proof. intros w. unfold read. by destruct (deref w r). Qed.

Lemma frame_set_calls c : preserves frame (modify (E:=exn) (set_calls c)).
Proof. intros w. done. Qed.

(** The copy is a new object, and it is the copy that [update] changes. *)
Lemma frame_final_kwargs kw : preserves frame (final_kwargs kw).
Proof.
  intros w. unfold final_kwargs.
  destruct (kw_env kw) as [extra_env|]; simpl.
  2:{ unfold bind, ret. simpl. by destruct (kw_cwd kw). }
  assert (forall d, frame w (set_heap (heap w ++ [d]) w)) as Hnew.
  { intros d. split; [done|]. intros n d' Hn. simpl.
    by apply lookup_app_l_Some. }
  unfold bind, copy, update, read, write, gets, modify, ret, bind. simpl.
  destruct extra_env as [|n]; simpl.
  - rewrite list_lookup_middle by done. simpl.
    rewrite decide_True by (rewrite length_app; simpl; lia). simpl.
    rewrite insert_app_r_alt, Nat.sub_diag by done.
    destruct (kw_cwd kw); simpl; apply Hnew.
  - destruct ((heap w ++ [os_environ w]) !! n) as [d|] eqn:Hn; simpl; [|apply Hnew].
    rewrite list_lookup_middle by done. simpl.
    rewrite decide_True by (rewrite length_app; simpl; lia). simpl.
    rewrite insert_app_r_alt, Nat.sub_diag by done.
    destruct (kw_cwd kw); simpl; apply Hnew.
Qed.

Create HintDb frame discriminated.
#[local] Hint Resolve frame_logger_debug frame_read frame_set_calls
  frame_final_kwargs : frame.

(** One statement of a sequence, a loop, or a statement that touches neither
    the environment nor the heap. *)
Ltac frame_step :=
  first
    [ solve [auto with frame]
    | apply preserves_ret; apply _
    | apply preserves_raise; apply _
    | apply preserves_gets; apply _
    | apply preserves_for_each; [apply _|intro]
    | apply preserves_bind; [apply _| |intro] ].

Lemma frame__log_command args : preserves frame (_log_command args).
Proof. unfold _log_command. repeat frame_step. Qed.

Lemma frame__log_environment env : preserves frame (_log_environment env).
Proof.
  unfold _log_environment. frame_step; [frame_step|].
  destruct (negb _); [frame_step|].
  frame_step; [destruct env|]; repeat frame_step.
Qed.

Lemma frame__log_output output : preserves frame (_log_output output).
Proof. unfold _log_output. destruct (truthy output); repeat frame_step. Qed.

Lemma frame_call {A} m (f : request -> result exn A) argv kw :
  preserves frame (call m f argv kw).
Proof.
  unfold call. frame_step; [destruct (kw_env kw); repeat frame_step|].
  do 2 (frame_step; [frame_step|]).
  destruct (f _); frame_step.
Qed.

Lemma frame__log_return_code code : preserves frame (_log_return_code code).
Proof. apply frame_logger_debug. Qed.

#[local] Hint Resolve frame__log_command frame__log_environment
  frame__log_output frame__log_return_code frame_call : frame.

Lemma frame_run args kw : preserves frame (run sp args kw).
Proof. unfold run. repeat frame_step. Qed.

Lemma frame_check_output args kw : preserves frame (check_output sp args kw).
Proof. unfold check_output. repeat frame_step. Qed.

Lemma frame_Popen args kw : preserves frame (Popen sp args kw).
Proof. unfold Popen. repeat frame_step. Qed.

(** *** The claims on the wrapper *)

(** C1.  Whichever of [run], [check_output] and [Popen] is invoked: when an
    environment override is supplied, the environment handed to the
    [subprocess] module is a copy of the ambient environment updated with the
    entries of the override, so a key reads as in the override when the
    override has it and as in the ambient environment otherwise; when none
    is supplied, no [env] argument is passed on. *)
Theorem effective_environment m args kw w :
  live w kw ->
  (forall d, kw_env kw ≫= deref w = Some d -> dict_wf d) ->
  exists rq,
    calls (world_after m args kw w) = calls w ++ [(m, rq)] /\
    match kw_env kw with
    | Some r =>
        exists override,
          deref w r = Some override /\
          rq_env rq = Some (dict_update (os_environ w) override) /\
          forall k,
            rq_env rq ≫= dict_get k
            = match dict_get k override with
              | Some v => Some v
              | None => dict_get k (os_environ w)
              end
    | None => rq_env rq = None
    end.
Proof.
  intros Hlive Hwf. exists (final_request w args kw).
  split; [by apply calls_world_after|].
  unfold live, final_request, merged_environment in *. simpl.
  destruct (kw_env kw) as [r|]; simpl in *; [|done].
  destruct Hlive as [d Hd]. rewrite Hd in *. simpl.
  exists d. split_and!; [done..|].
  intros k. apply dict_get_update. by apply Hwf.
Qed.

(** C7.  Whichever method is invoked, the [subprocess] module receives the
    argument sequence with every element replaced by its string form, in the
    same order and of the same length. *)
Theorem arguments_coerced_to_strings m args kw w :
  live w kw ->
  exists rq,
    calls (world_after m args kw w) = calls w ++ [(m, rq)] /\
    rq_args rq = map py_str args /\
    length (rq_args rq) = length args /\
    forall i, rq_args rq !! i = py_str <$> args !! i.
Proof.
  intros Hlive. exists (final_request w args kw).
  split; [by apply calls_world_after|]. simpl.
  split_and!; [done|apply length_map|].
  intros i. apply list_lookup_fmap.
Qed.

(** C8.  Whichever method is invoked, a failure raised by the [subprocess]
    module for the request it was handed is raised to the caller as it is. *)
Theorem os_failure_propagates m args kw w rq e :
  live w kw ->
  calls (world_after m args kw w) = calls w ++ [(m, rq)] ->
  answer m rq = Some e ->
  raised m args kw w = Some e.
Proof.
  intros Hlive Hcalls Hanswer.
  rewrite calls_world_after in Hcalls by done.
  apply app_inv_head in Hcalls. injection Hcalls as <-.
  by rewrite raised_world_after.
Qed.

(** C9.  Whichever method is invoked, with or without an override, the
    ambient environment is the same mapping after the call as before it, and
    so is every mapping object that existed before the call. *)
Theorem ambient_environment_not_mutated m args kw w :
  os_environ (world_after m args kw w) = os_environ w /\
  forall n d, heap w !! n = Some d -> heap (world_after m args kw w) !! n = Some d.
Proof.
  destruct m; simpl.
  - apply frame_run.
  - apply frame_check_output.
  - apply frame_Popen.
Qed.

(** C5, as amended.  A successful [run] returns the completed-process object
    that [subprocess.run] returned for the request, whole: its arguments, its
    exit code and its captured output; the exit code is what is logged
    last when debug logging is enabled. *)
Theorem run_returns_completed_process args kw w r w' :
  live w kw ->
  run sp args kw w = (Ok r, w') ->
  exists rq,
    calls w' = calls w ++ [(MRun, rq)] /\
    sp_run sp rq = Ok r /\
    last (new_lines w w')
    = if debug w then Some (return_code_line (returncode r)) else None.
Proof.
  intros Hlive. rewrite run_eq by done. simpl.
  destruct (sp_run sp (final_request w args kw)) as [r0|e] eqn:Hsp; [|done].
  intros [= <- <-]. exists (final_request w args kw).
  split_and!; [by rewrite calls_logged|done|].
  unfold new_lines.
  rewrite log_logged, debug_at_call, log_at_call, log_logged.
  rewrite <-app_assoc, drop_app_length.
  destruct (debug w); [by rewrite last_snoc|done].
Qed.

Lemma no_return_code_in_command_lines args line :
  line ∈ command_lines args -> is_return_code_line line = false.
Proof.
  unfold command_lines.
  intros Hin. repeat (apply elem_of_cons in Hin as [->|Hin]; [done|]).
  by apply elem_of_nil in Hin.
Qed.

Lemma no_return_code_in_environment_lines d line :
  line ∈ environment_lines d -> is_return_code_line line = false.
Proof.
  unfold environment_lines.
  intros [->|Hin]%elem_of_cons; [done|].
  apply list_elem_of_fmap in Hin as (kv & -> & _). done.
Qed.

Lemma no_return_code_in_output_lines output line :
  line ∈ output_lines output -> is_return_code_line line = false.
Proof.
  unfold output_lines. destruct (truthy output); [|by intros ?%elem_of_nil].
  intros [->|Hin]%elem_of_cons; [done|].
  apply list_elem_of_fmap in Hin as (l & -> & _). done.
Qed.

(** C6, as amended.  With debug logging enabled, the records that
    [check_output] logs are, for every invocation, those of the command and
    of the environment, followed, when the command succeeds, by those of the
    captured output, and by nothing when it fails; with debug logging
    disabled it logs none.  No record it logs is a return code. *)
Theorem check_output_logs_no_return_code args kw w :
  live w kw ->
  new_lines w (check_output sp args kw w).2
  = (if debug w
     then prologue w args kw
            ++ match (check_output sp args kw w).1 with
               | Ok r => output_lines r
               | Raise _ => []
               end
     else []) /\
  forall line,
    line ∈ new_lines w (check_output sp args kw w).2 ->
    is_return_code_line line = false.
Proof.
  intros Hlive.
  assert (new_lines w (check_output sp args kw w).2
          = if debug w
            then prologue w args kw
                   ++ match (check_output sp args kw w).1 with
                      | Ok r => output_lines r
                      | Raise _ => []
                      end
            else []) as Hlines.
  { rewrite check_output_eq by done. cbv zeta. unfold new_lines.
    destruct (sp_check_output sp (final_request w args kw)) as [r|e];
      cbn [fst snd].
    - rewrite log_logged, debug_at_call, log_at_call, log_logged.
      rewrite <-app_assoc, drop_app_length. by destruct (debug w).
    - rewrite log_at_call, log_logged, drop_app_length.
      destruct (debug w); [by rewrite app_nil_r|done]. }
  split; [exact Hlines|].
  intros line. rewrite Hlines.
  destruct (debug w); [|by intros ?%elem_of_nil].
  unfold prologue.
  intros [[?|?]%elem_of_app|Hout]%elem_of_app;
    eauto using no_return_code_in_command_lines,
                no_return_code_in_environment_lines.
  destruct (check_output sp args kw w).1;
    [eauto using no_return_code_in_output_lines|by apply elem_of_nil in Hout].
Qed.

End Methods.

(** *** Concrete invocations *)

(** A [subprocess] module whose commands succeed, and one whose commands
    cannot be started. *)
Definition succeeding (out : string) : subprocess_module :=
  SubprocessModule
    (fun rq => Ok (Completed (rq_args rq) 0 (Some (VBytes out)) None))
    (fun rq => Ok (VStr out))
    (fun rq => Ok (Handle 1 (rq_args rq))).

Definition not_found : exn := OSError 2 "No such file or directory".

Definition failing : subprocess_module :=
  SubprocessModule (fun _ => Raise not_found) (fun _ => Raise not_found)
                   (fun _ => Raise not_found).

(** Debug logging is on, the ambient environment holds [PATH], and a caller
    has built the override [{'FOO': 'bar'}]. *)
Definition sample_world : world :=
  World [("PATH", "/bin")] [[("FOO", "bar")]] true [] [].

Definition sample_kwargs : kwargs :=
  Kwargs (Some (RObj 0)) (Some (VPath "/tmp")) ∅.

Definition sample_args : list pyval := [VStr "ls"; VInt 3; VPath "/tmp/some dir"].

Lemma sample_live : live sample_world sample_kwargs.
Proof. unfold live. simpl. eexists. reflexivity. Defined.

Lemma sample_wf d :
  kw_env sample_kwargs ≫= deref sample_world = Some d -> dict_wf d.
Proof.
  simpl. intros [= <-]. unfold dict_wf. simpl.
  apply NoDup_singleton.
Defined.

Lemma effective_environment_witness :
  exists rq,
    calls (world_after (succeeding "hello") MRun sample_args sample_kwargs sample_world)
    = calls sample_world ++ [(MRun, rq)] /\
    match kw_env sample_kwargs with
    | Some r =>
        exists override,
          deref sample_world r = Some override /\
          rq_env rq = Some (dict_update (os_environ sample_world) override) /\
          forall k,
            rq_env rq ≫= dict_get k
            = match dict_get k override with
              | Some v => Some v
              | None => dict_get k (os_environ sample_world)
              end
    | None => rq_env rq = None
    end.
Proof.
  exact (effective_environment (succeeding "hello") MRun sample_args
           sample_kwargs sample_world sample_live sample_wf).
Defined.

Lemma arguments_coerced_to_strings_witness :
  exists rq,
    calls (world_after (succeeding "hello") MPopen sample_args sample_kwargs sample_world)
    = calls sample_world ++ [(MPopen, rq)] /\
    rq_args rq = map py_str sample_args /\
    length (rq_args rq) = length sample_args /\
    forall i, rq_args rq !! i = py_str <$> sample_args !! i.
Proof.
  exact (arguments_coerced_to_strings (succeeding "hello") MPopen sample_args
           sample_kwargs sample_world sample_live).
Defined.

Lemma os_failure_propagates_witness :
  raised failing MCheckOutput sample_args sample_kwargs sample_world
  = Some not_found.
Proof.
  apply (os_failure_propagates failing MCheckOutput sample_args sample_kwargs
           sample_world
           (final_request sample_world sample_args sample_kwargs) not_found).
  - exact sample_live.
  - reflexivity.
  - reflexivity.
Defined.

Lemma run_returns_completed_process_witness :
  exists rq,
    calls (run (succeeding "hello") sample_args sample_kwargs sample_world).2
    = calls sample_world ++ [(MRun, rq)] /\
    sp_run (succeeding "hello") rq
    = Ok (Completed (map py_str sample_args) 0 (Some (VBytes "hello")) None) /\
    last (new_lines sample_world
            (run (succeeding "hello") sample_args sample_kwargs sample_world).2)
    = Some (return_code_line 0).
Proof.
  apply (run_returns_completed_process (succeeding "hello") sample_args
           sample_kwargs sample_world).
  - exact sample_live.
  - reflexivity.
Defined.

Lemma check_output_logs_no_return_code_witness :
  new_lines sample_world
    (check_output (succeeding "hello") sample_args sample_kwargs sample_world).2
  = (if debug sample_world
     then prologue sample_world sample_args sample_kwargs
            ++ match (check_output (succeeding "hello") sample_args
                        sample_kwargs sample_world).1 with
               | Ok r => output_lines r
               | Raise _ => []
               end
     else []) /\
  forall line,
    line ∈ new_lines sample_world
             (check_output (succeeding "hello") sample_args sample_kwargs
                sample_world).2 ->
    is_return_code_line line = false.
Proof.
  exact (check_output_logs_no_return_code (succeeding "hello") sample_args
           sample_kwargs sample_world sample_live).
Defined.

(** *** Where the code and the claims part *)

(** C4.  [run(['ls', 3, Path('/tmp/some dir')], env={'FOO': 'bar'}, cwd=...)]
    with debug logging enabled and [PATH] in the ambient environment: the
    environment handed to [subprocess.run] holds [PATH] and [FOO], and the
    environment lines of the log hold [FOO] alone: the override, not the
    merged environment. *)
Theorem run_logs_override_not_merged_environment :
  let w' := (run (succeeding "hello") sample_args sample_kwargs sample_world).2 in
  new_lines sample_world w'
  = command_lines sample_args ++ environment_lines [("FOO", "bar")]
      ++ ["Command Output:"; return_code_line 0]
  /\ rq_env <$> (snd <$> calls w') = [Some [("PATH", "/bin"); ("FOO", "bar")]]
  /\ environment_lines [("FOO", "bar")]
     <> environment_lines [("PATH", "/bin"); ("FOO", "bar")].
Proof. split_and!; [reflexivity..|discriminate]. Qed.

(** The claim C5 as the specification words it: what [run] returns is the exit
    code and nothing else, that is, it is fixed by the exit code. *)
Definition run_returns_only_exit_code : Prop :=
  exists value_of : Z -> CompletedProcess,
    forall sp args kw w r w',
      live w kw ->
      run sp args kw w = (Ok r, w') ->
      r = value_of (returncode r).

(** C5 fails: two commands that both exit with code 0 and print different
    text make [run] return different values. *)
Lemma run_returns_more_than_exit_code : ~ run_returns_only_exit_code.
Proof.
  intros [value_of Hvalue].
  pose proof (Hvalue (succeeding "hello") sample_args sample_kwargs sample_world
                _ _ sample_live eq_refl) as Hhello.
  pose proof (Hvalue (succeeding "world") sample_args sample_kwargs sample_world
                _ _ sample_live eq_refl) as Hworld.
  simpl in Hhello, Hworld. rewrite <-Hworld in Hhello. discriminate.
Qed.

(** The claim C6 as the specification words it: with debug logging enabled,
    [check_output] logs a return code. *)
Definition check_output_logs_return_code : Prop :=
  forall sp args kw w r w',
    live w kw ->
    debug w = true ->
    check_output sp args kw w = (Ok r, w') ->
    exists line, line ∈ new_lines w w' /\ is_return_code_line line = true.

(** C6 fails: a successful [check_output] with debug logging enabled leaves
    no return code in the log. *)
Lemma check_output_omits_return_code : ~ check_output_logs_return_code.
Proof.
  intros Hclaim.
  destruct (Hclaim (succeeding "hello") sample_args sample_kwargs sample_world
              _ _ sample_live eq_refl eq_refl) as (line & Hin & Hline).
  vm_compute in Hin.
  repeat (apply elem_of_cons in Hin as [->|Hin]; [discriminate Hline|]).
  by apply elem_of_nil in Hin.
Qed.

End SubprocessFacts.


(** ** The upgrade of linuxdeploy *)

Module LinuxDeployFacts.
Import PyFacts LinuxDeploy.

Section Upgrade.
Variable host_arch tools_path : string.
Variable download_url : string -> string -> result exn string.

(** The world once the old artifact is out of the way and the download has
    been requested. *)
Definition requested (tool : string) (w : world) : world :=
  let path := appimage_path host_arch tools_path tool in
  World (files w ∖ {[path]})
        (events w
           ++ (if bool_decide (path ∈ files w) then [Unlink path] else [])
           ++ [Download (download_url_of host_arch tool) tools_path]).

Lemma upgrade_tool_eq tool w :
  upgrade_tool host_arch tools_path download_url tool w
  = let w' := requested tool w in
    match download_url (download_url_of host_arch tool) tools_path with
    | Ok artifact =>
        (Ok tt, World (files w' ∪ {[artifact]})
                      (events w' ++ [Chmod artifact 493]))
    | Raise ConnectionError =>
        (Raise (NetworkFailure tool (download_url_of host_arch tool)), w')
    | Raise e => (Raise e, w')
    end.
Proof.
  unfold upgrade_tool, requested.
  erewrite bind_ok by reflexivity.
  set (path := appimage_path host_arch tools_path tool).
  set (url := download_url_of host_arch tool).
  destruct (bool_decide (path ∈ files w)) eqn:Hpresent.
  - erewrite bind_ok by reflexivity.
    unfold try_except, download, bind, emit, modify, ret, raise, chmod. simpl.
    rewrite <-!app_assoc. simpl.
    destruct (download_url url tools_path) as [artifact|[]]; simpl; done.
  - erewrite bind_ok by reflexivity.
    apply bool_decide_eq_false in Hpresent.
    rewrite (difference_disjoint_L (files w) {[path]})
      by (by apply disjoint_singleton_r).
    unfold try_except, download, bind, emit, modify, ret, raise, chmod. simpl.
    destruct (download_url url tools_path) as [artifact|[]]; simpl; done.
Qed.

End Upgrade.

Definition linuxdeploy_url : string :=
  "https://github.com/linuxdeploy/linuxdeploy/releases/download/continuous/linuxdeploy-wonky.AppImage".


(** C2.  On the host [wonky], when the download succeeds: a file found at
    [<tools>/linuxdeploy-wonky.AppImage] is deleted first; one download is
    requested, of the continuous release of linuxdeploy for [wonky] into
    [<tools>]; the downloaded artifact is then given mode [0o755]; the
    download and the chmod are the same whether or not the file was there. *)
Theorem upgrade_deletes_downloads_and_chmods
    (tools : string) (download_url : string -> string -> result exn string)
    (artifact : string) (w : world) :
  download_url linuxdeploy_url tools = Ok artifact ->
  let path := tools +:+ "/linuxdeploy-wonky.AppImage" in
  let w' := (upgrade "wonky" tools download_url w).2 in
  (upgrade "wonky" tools download_url w).1 = Ok tt /\
  events w'
  = events w
      ++ (if bool_decide (path ∈ files w) then [Unlink path] else [])
      ++ [Download linuxdeploy_url tools; Chmod artifact 493] /\
  files w' = (files w ∖ {[path]}) ∪ {[artifact]}.
Proof.
  intros Hdownload. unfold upgrade. rewrite upgrade_tool_eq.
  change (download_url_of "wonky" "linuxdeploy") with linuxdeploy_url.
  rewrite Hdownload. simpl.
  change (appimage_path "wonky" tools "linuxdeploy")
    with (tools +:+ "/linuxdeploy-wonky.AppImage").
  split_and!; [done| |done].
  by rewrite <-!app_assoc.
Qed.


(** The test double: every download gives ['new-downloaded-file']. *)
Definition download_ok (url download_path : string) : result exn string :=
  Ok "new-downloaded-file".


(** An install is present under the tools directory. *)
Definition installed : world :=
  World {[ "/tmp/tools/linuxdeploy-wonky.AppImage" ]} [].

Lemma upgrade_deletes_downloads_and_chmods_witness :
  (upgrade "wonky" "/tmp/tools" download_ok installed).1 = Ok tt /\
  events (upgrade "wonky" "/tmp/tools" download_ok installed).2
  = [ Unlink "/tmp/tools/linuxdeploy-wonky.AppImage";
      Download linuxdeploy_url "/tmp/tools";
      Chmod "new-downloaded-file" 493 ] /\
  files (upgrade "wonky" "/tmp/tools" download_ok installed).2
  = (files installed ∖ {[ "/tmp/tools/linuxdeploy-wonky.AppImage" ]})
      ∪ {[ "new-downloaded-file" ]}.
Proof.
  exact (upgrade_deletes_downloads_and_chmods "/tmp/tools" download_ok
           "new-downloaded-file" installed eq_refl).
Defined.


End LinuxDeployFacts.


(** ** The publish command *)

Module PublishFacts.
Import PyFacts Publish.

#[global] Instance item_le_transitive {A} : Transitive (@item_le A).
Proof. intros x y z. unfold item_le. apply transitivity. Qed.

#[global] Instance item_le_total {A} : Total (@item_le A).
Proof. intros x y. unfold item_le. apply total, _. Qed.

Section PublishCommand.
Variable BaseConfig : Type.
Variable name : BaseConfig -> string.
Variable binary_path : BaseConfig -> string.
Variable verify_tools : Cmd unit.
Variable channel : string.

(** The name of the first app, in the order of the dictionary, whose binary
    is not among the files [fs]. *)
Fixpoint first_unbuilt (fs : gset string) (apps : list (string * BaseConfig))
    : option string :=
  match apps with
  | [] => None
  | item :: apps' =>
      if bool_decide (binary_path item.2 ∈ fs) then first_unbuilt fs apps'
      else Some item.1
  end.

(** The lines that publishing [items], one after the other, prints. *)
Definition published (items : list (string * BaseConfig)) : list string :=
  map (fun item => "TODO: Publish " +:+ name item.2 +:+ " to " +:+ channel) items.

Lemma first_unbuilt_Some fs apps app_name :
  first_unbuilt fs apps = Some app_name ->
  exists app, (app_name, app) ∈ apps /\ binary_path app ∉ fs.
Proof.
  induction apps as [|[n a] apps IH]; simpl; [done|].
  destruct (bool_decide (binary_path a ∈ fs)) eqn:Hbuilt.
  - intros (app & Hin & Hmissing)%IH. exists app. split; [by right|done].
  - intros [= <-]. exists a. split; [left|].
    by apply bool_decide_eq_false in Hbuilt.
Qed.

Lemma first_unbuilt_None fs apps :
  first_unbuilt fs apps = None <->
  forall item, item ∈ apps -> binary_path item.2 ∈ fs.
Proof.
  induction apps as [|[n a] apps IH]; simpl.
  - split; [|done]. by intros _ item ?%elem_of_nil.
  - destruct (bool_decide (binary_path a ∈ fs)) eqn:Hbuilt.
    + apply bool_decide_eq_true in Hbuilt. rewrite IH. split.
      * intros Hall item [->|Hin]%elem_of_cons; [done|auto].
      * intros Hall item Hin. apply Hall. by right.
    + apply bool_decide_eq_false in Hbuilt. split; [done|].
      intros Hall. destruct Hbuilt. apply (Hall (n, a)). left.
Qed.

(** The first loop of [__call__] stops at the first app that is not built. *)
Lemma check_loop_eq apps w :
  for_each apps (fun item =>
    bind (exists_ (binary_path item.2)) (fun built =>
      if negb built then raise (not_built item.1) else ret tt)) w
  = match first_unbuilt (files w) apps with
    | Some app_name => (Raise (not_built app_name), w)
    | None => (Ok tt, w)
    end.
Proof.
  induction apps as [|[n a] apps IH]; simpl; [done|].
  unfold bind at 1. unfold bind at 1. unfold exists_, gets.
  destruct (bool_decide (binary_path a ∈ files w)); simpl; [apply IH|done].
Qed.

(** The second loop prints one line for each item, in order. *)
Lemma publish_loop_eq items w :
  for_each items (fun item => publish_app name item.2 channel) w
  = (Ok tt, World (files w) (stdout w ++ published items)).
Proof.
  revert w. induction items as [|item items IH]; intros w; simpl.
  - rewrite app_nil_r. by destruct w.
  - erewrite bind_ok by reflexivity. rewrite IH. simpl.
    by rewrite <-app_assoc.
Qed.

(** C10, as amended.  When the verification of the tools returns: if the
    binary of any app is missing, a [BriefcaseCommandError] is raised whose
    message names an app whose binary is missing, and nothing has been
    published; if every binary is there, each app is published once, in
    ascending order of app name. *)
Theorem publish_all_or_nothing (apps : list (string * BaseConfig)) w w1 :
  NoDup apps.*1 ->
  verify_tools w = (Ok tt, w1) ->
  let call := __call__ name binary_path verify_tools apps channel in
  ((exists item, item ∈ apps /\ binary_path item.2 ∉ files w1) ->
   exists app_name app,
     (app_name, app) ∈ apps /\ (binary_path app ∉ files w1) /\
     call w
     = (Raise (BriefcaseCommandError
                 ("Application " +:+ app_name
                    +:+ " has not been built. Build (and test!) the app before publishing.")),
        w1))
  /\
  ((forall item, item ∈ apps -> binary_path item.2 ∈ files w1) ->
   (sorted apps ≡ₚ apps) /\
   NoDup (sorted apps).*1 /\
   StronglySorted item_le (sorted apps) /\
   call w = for_each (sorted apps) (fun item => publish_app name item.2 channel) w1 /\
   call w = (Ok tt, World (files w1) (stdout w1 ++ published (sorted apps)))).
Proof.
  intros Hkeys Hverify call.
  assert (call w
          = match first_unbuilt (files w1) apps with
            | Some app_name => (Raise (not_built app_name), w1)
            | None =>
                for_each (sorted apps)
                  (fun item => publish_app name item.2 channel) w1
            end) as Hcall.
  { unfold call, __call__.
    erewrite bind_ok by exact Hverify.
    pose proof (check_loop_eq apps w1) as Hcheck.
    destruct (first_unbuilt (files w1) apps) as [app_name|].
    - by erewrite bind_raise by exact Hcheck.
    - by erewrite bind_ok by exact Hcheck. }
  split.
  - intros (item & Hin & Hmissing).
    destruct (first_unbuilt (files w1) apps) as [app_name|] eqn:Hfirst.
    + destruct (first_unbuilt_Some _ _ _ Hfirst) as (app & Happ & Hno).
      exists app_name, app. split_and!; [done..|].
      rewrite Hcall. reflexivity.
    + destruct Hmissing.
      by apply (proj1 (first_unbuilt_None (files w1) apps) Hfirst).
  - intros Hall. apply first_unbuilt_None in Hall. rewrite Hall in Hcall.
    assert (sorted apps ≡ₚ apps) as Hperm by apply merge_sort_Permutation.
    split_and!; [done| |apply StronglySorted_merge_sort; apply _|done|].
    + by rewrite Hperm.
    + by rewrite Hcall, publish_loop_eq.
Qed.

End PublishCommand.

Arguments first_unbuilt {BaseConfig} binary_path fs apps.
Arguments published {BaseConfig} name channel items.

(** Two apps, added to the project in the order [zebra], [alpha]; an app is
    described by its name and its binary is [/build/<name>]. *)
Definition two_apps : list (string * string) :=
  [("zebra", "zebra"); ("alpha", "alpha")].

Definition binary_of (app : string) : string := "/build/" +:+ app.

Definition both_built : world :=
  World {[ "/build/zebra"; "/build/alpha" ]} [].

Example publish_both :
  __call__ id binary_of (ret tt) two_apps "s3" both_built
  = (Ok tt, World (files both_built)
              ["TODO: Publish alpha to s3"; "TODO: Publish zebra to s3"]).
Proof. vm_compute. reflexivity. Qed.

Example publish_none_when_one_is_missing :
  __call__ id binary_of (ret tt) two_apps "s3" (World {[ "/build/zebra" ]} [])
  = (Raise (not_built "alpha"), World {[ "/build/zebra" ]} []).
Proof. vm_compute. reflexivity. Qed.

(** Only [zebra] is built. *)
Definition zebra_built : world := World {[ "/build/zebra" ]} [].

(** The verification of the tools finds one missing. *)
Definition tools_missing : Cmd unit := raise (OtherError "MissingToolException").

Lemma publish_all_or_nothing_witness :
  (exists app_name app,
     (app_name, app) ∈ two_apps /\ (binary_of app ∉ files zebra_built) /\
     __call__ id binary_of (ret tt) two_apps "s3" zebra_built
     = (Raise (BriefcaseCommandError
                 ("Application " +:+ app_name
                    +:+ " has not been built. Build (and test!) the app before publishing.")),
        zebra_built))
  /\
  ((sorted two_apps ≡ₚ two_apps) /\
   NoDup (sorted two_apps).*1 /\
   StronglySorted item_le (sorted two_apps) /\
   __call__ id binary_of (ret tt) two_apps "s3" both_built
   = for_each (sorted two_apps) (fun item => publish_app id item.2 "s3") both_built /\
   __call__ id binary_of (ret tt) two_apps "s3" both_built
   = (Ok tt, World (files both_built)
               (stdout both_built ++ published id "s3" (sorted two_apps)))).
Proof.
  assert (NoDup two_apps.*1) as Hkeys.
  { apply (bool_decide_unpack _). vm_compute. exact I. }
  split.
  - apply (proj1 (publish_all_or_nothing string id binary_of (ret tt) "s3"
                    two_apps zebra_built zebra_built Hkeys eq_refl)).
    exists ("alpha", "alpha"). split.
    + right. left.
    + apply (bool_decide_unpack _). vm_compute. exact I.
  - apply (proj2 (publish_all_or_nothing string id binary_of (ret tt) "s3"
                    two_apps both_built both_built Hkeys eq_refl)).
    intros item Hin.
    apply elem_of_cons in Hin as [->|Hin];
      [|apply list_elem_of_singleton in Hin as ->];
      apply (bool_decide_unpack _); vm_compute; exact I.
Defined.

(** The claim C10 as the specification words it: for every invocation, a
    missing binary makes [__call__] raise a [BriefcaseCommandError]. *)
Definition missing_binary_always_reported : Prop :=
  forall (BaseConfig : Type) (name binary_path : BaseConfig -> string)
         (verify_tools : Cmd unit) (apps : list (string * BaseConfig))
         (channel : string) (w : world),
    NoDup apps.*1 ->
    (exists item, item ∈ apps /\ binary_path item.2 ∉ files w) ->
    exists msg,
      (__call__ name binary_path verify_tools apps channel w).1
      = Raise (BriefcaseCommandError msg).

(** C10 fails where the verification of the tools raises: [alpha] is not
    built, and what [__call__] raises is the exception of [verify_tools]. *)
Lemma missing_binary_not_reported_when_tools_fail :
  ~ missing_binary_always_reported.
Proof.
  intros Hclaim.
  destruct (Hclaim string id binary_of tools_missing two_apps "s3" zebra_built)
    as [msg Hmsg].
  - apply (bool_decide_unpack _). vm_compute. exact I.
  - exists ("alpha", "alpha"). split.
    + right. left.
    + apply (bool_decide_unpack _). vm_compute. exact I.
  - discriminate Hmsg.
Qed.

End PublishFacts.


(** ** More on dictionaries and on text *)

Module PyMore.
Import PyFacts.

(** *** [update] on ordered dictionaries *)

Lemma dict_setitem_fresh (k v : string) (d : dict) :
  k ∉ d.*1 -> dict_setitem k v d = d ++ [(k, v)].
Proof.
  induction d as [|[k' v'] d IH]; csimpl; [done|].
  intros [Hne Hk]%not_elem_of_cons.
  rewrite decide_False by done. by rewrite IH.
Qed.

Lemma dict_setitem_middle (k v v' : string) (p q : dict) :
  k ∉ p.*1 -> dict_setitem k v' (p ++ (k, v) :: q) = p ++ (k, v') :: q.
Proof.
  induction p as [|[k0 v0] p IH]; csimpl.
  - intros _. by rewrite decide_True.
  - intros [Hne Hk]%not_elem_of_cons.
    rewrite decide_False by done. by rewrite IH.
Qed.

Lemma dict_update_app (d o1 o2 : dict) :
  dict_update d (o1 ++ o2) = dict_update (dict_update d o1) o2.
Proof. unfold dict_update. apply fold_left_app. Qed.

Lemma dict_update_cons (d o : dict) (k v : string) :
  dict_update d ((k, v) :: o) = dict_update (dict_setitem k v d) o.
Proof. done. Qed.

(** Updating with new values for the last keys, in their order. *)
Lemma dict_update_same_keys (p q q' : dict) :
  q'.*1 = q.*1 -> NoDup (p ++ q).*1 -> dict_update (p ++ q) q' = p ++ q'.
Proof.
  revert p q. induction q' as [|[k v'] q' IH]; intros p q Hkeys Hnodup.
  - destruct q; [done|discriminate].
  - destruct q as [|[k0 v] q]; [discriminate|].
    csimpl in Hkeys. injection Hkeys as <- Hkeys.
    rewrite dict_update_cons.
    assert (k ∉ p.*1) as Hk.
    { rewrite fmap_app in Hnodup. apply NoDup_app in Hnodup as (_ & Hdisj & _).
      intros Hin. apply (Hdisj _ Hin). csimpl. left. }
    rewrite dict_setitem_middle by done.
    rewrite (cons_middle _ p q), app_assoc.
    rewrite (IH (p ++ [(k, v')]) q Hkeys).
    + by rewrite <-app_assoc.
    + rewrite <-app_assoc. simpl.
      by rewrite fmap_app in *.
Qed.

(** Updating with keys that are all new appends them. *)
Lemma dict_update_fresh (d n : dict) :
  NoDup (d ++ n).*1 -> dict_update d n = d ++ n.
Proof.
  revert d. induction n as [|[k v] n IH]; intros d Hnodup.
  - by rewrite app_nil_r.
  - rewrite dict_update_cons.
    assert (k ∉ d.*1) as Hk.
    { rewrite fmap_app in Hnodup. apply NoDup_app in Hnodup as (_ & Hdisj & _).
      intros Hin. apply (Hdisj _ Hin). csimpl. left. }
    rewrite dict_setitem_fresh by done.
    rewrite IH; rewrite <-app_assoc; done.
Qed.

(** An update keeps the keys of the dictionary first, in their order. *)
Lemma dict_update_split (d other : dict) :
  exists m1 m2, dict_update d other = m1 ++ m2 /\ m1.*1 = d.*1.
Proof.
  revert d. induction other as [|[k v] other IH]; intros d.
  - exists d, []. by rewrite app_nil_r.
  - rewrite dict_update_cons.
    destruct (IH (dict_setitem k v d)) as (m1 & m2 & Heq & Hkeys).
    rewrite dict_setitem_keys in Hkeys.
    destruct (decide (k ∈ d.*1)); [by exists m1, m2|].
    apply fmap_app_inv in Hkeys as (m1a & m1b & Hka & Hkb & ->).
    exists m1a, (m1b ++ m2). by rewrite app_assoc.
Qed.

(** Updating a dictionary with the result of updating it changes nothing
    more. *)
Lemma dict_update_idempotent (d other : dict) :
  dict_wf d -> dict_update d (dict_update d other) = dict_update d other.
Proof.
  intros Hd.
  pose proof (dict_update_wf d other Hd) as Hwf.
  destruct (dict_update_split d other) as (m1 & m2 & Heq & Hkeys).
  rewrite Heq in *. rewrite dict_update_app.
  pose proof (dict_update_same_keys [] d m1 Hkeys Hd) as Hfirst.
  simpl in Hfirst. rewrite Hfirst.
  by apply dict_update_fresh.
Qed.

(** The keys after an update: those of the dictionary, then the new ones. *)
Lemma dict_update_keys (d other : dict) :
  dict_wf other ->
  (dict_update d other).*1 = d.*1 ++ filter (fun k => k ∉ d.*1) other.*1.
Proof.
  unfold dict_wf. revert d.
  induction other as [|[k v] other IH]; intros d Hwf.
  - csimpl. by rewrite app_nil_r.
  - rewrite fmap_cons in *. cbn [fst].
    apply NoDup_cons in Hwf as [Hk Hwf].
    rewrite dict_update_cons, IH, dict_setitem_keys by done.
    destruct (decide (k ∈ d.*1)) as [Hin|Hin].
    + by rewrite filter_cons_False by (intros ?; done).
    + rewrite filter_cons_True by done. rewrite <-app_assoc. simpl.
      do 2 f_equal. clear IH Hwf.
      induction (other.*1) as [|k' ks IHks]; [done|].
      apply not_elem_of_cons in Hk as [Hne Hk].
      rewrite !filter_cons, IHks by done.
      destruct (decide (k' ∉ d.*1 ++ [k])) as [H1|H1],
               (decide (k' ∉ d.*1)) as [H2|H2]; try done.
      * exfalso. apply H2. intros Hd. apply H1, elem_of_app. by left.
      * exfalso. apply H1.
        intros [?|Hx%list_elem_of_singleton]%elem_of_app; [done|].
        simpl in Hne. congruence.
Qed.

(** *** Text without line boundaries *)

Fixpoint no_break (s : string) : bool :=
  match s with
  | EmptyString => true
  | String c s' => negb (is_linebreak c) && no_break s'
  end.

Lemma string_app_assoc (s1 s2 s3 : string) :
  (s1 +:+ s2) +:+ s3 = s1 +:+ (s2 +:+ s3).
Proof.
  induction s1 as [|c s1 IH]; [done|].
  change (String c ((s1 +:+ s2) +:+ s3) = String c (s1 +:+ (s2 +:+ s3))).
  by rewrite IH.
Qed.

Lemma no_break_app (s1 s2 : string) :
  no_break (s1 +:+ s2) = no_break s1 && no_break s2.
Proof.
  induction s1 as [|c s1 IH]; [done|].
  change (no_break (String c (s1 +:+ s2))
          = no_break (String c s1) && no_break s2).
  simpl. by rewrite IH, andb_assoc.
Qed.

(** Text without a line boundary is one line, or none when it is empty. *)
Lemma splitlines_from_no_break (line s : string) :
  no_break s = true ->
  splitlines_from line false s
  = if String.eqb (line +:+ s) "" then [] else [line +:+ s].
Proof.
  revert line. induction s as [|c s IH]; intros line Hs.
  - simpl. assert (line +:+ "" = line) as ->; [|done].
    clear. induction line as [|c l IHl]; [done|].
    change (String c (l +:+ "") = String c l). by rewrite IHl.
  - simpl in Hs. apply andb_true_iff in Hs as [Hc Hs].
    apply negb_true_iff in Hc.
    cbn [splitlines_from andb]. rewrite Hc, IH by done.
    unfold chr. by rewrite string_app_assoc.
Qed.

Lemma no_break_bytes_repr_char (q c : ascii) :
  q = squote \/ q = dquote -> no_break (bytes_repr_char q c) = true.
Proof.
  intros [-> | ->];
    destruct c as [[] [] [] [] [] [] [] []]; vm_compute; reflexivity.
Qed.

Lemma no_break_bytes_repr_body (q : ascii) (b : string) :
  q = squote \/ q = dquote -> no_break (bytes_repr_body q b) = true.
Proof.
  intros Hq. induction b as [|c b IH]; [done|].
  cbn [bytes_repr_body]. rewrite no_break_app, IH.
  by rewrite no_break_bytes_repr_char.
Qed.

(** The text form of a bytes object holds no line boundary: the bytes that
    are one are written as escapes. *)
Lemma no_break_bytes_repr (b : string) : no_break (bytes_repr b) = true.
Proof.
  unfold bytes_repr.
  set (q := if contains squote b && negb (contains dquote b)
            then dquote else squote).
  assert (q = squote \/ q = dquote) as Hq.
  { unfold q. destruct (_ && _); auto. }
  assert (no_break (chr q) = true) as Hchr.
  { destruct Hq as [-> | ->]; reflexivity. }
  cbn [no_break]. rewrite no_break_app, no_break_bytes_repr_body, Hchr by done.
  destruct Hq as [-> | ->]; reflexivity.
Qed.

Lemma splitlines_bytes_repr (b : string) :
  splitlines (bytes_repr b) = [bytes_repr b].
Proof.
  unfold splitlines.
  rewrite splitlines_from_no_break by apply no_break_bytes_repr.
  done.
Qed.

End PyMore.


(** ** More on the subprocess wrapper *)

Module SubprocessMore.
Import PyFacts PyMore Subprocess SubprocessFacts.

(** Two worlds with the same mapping objects: they may differ in what the
    logger does and has done, and in the calls made so far. *)
Definition same_objects (w1 w2 : world) : Prop :=
  os_environ w1 = os_environ w2 /\ heap w1 = heap w2.

(** The logger stays as it is, and while it is disabled the log does too. *)
Definition quiet (w w' : world) : Prop :=
  debug w' = debug w /\ (debug w = false -> log w' = log w).

#[global] Instance quiet_preorder : PreOrder quiet.
Proof.
  split.
  - intros w. by split.
  - intros w1 w2 w3 [Hd1 Hl1] [Hd2 Hl2]. split; [congruence|].
    intros Hoff. rewrite Hl2 by congruence. auto.
Qed.

Lemma quiet_logger_debug msg : preserves quiet (logger_debug msg).
Proof.
  intros w. unfold quiet, logger_debug. simpl.
  destruct (debug w) eqn:Hdebug; simpl; [|done].
  split; [done|]. intros Hoff. congruence.
Qed.

Lemma quiet_read r : preserves quiet (read r).
Proof. intros w. unfold read. by destruct (deref w r). Qed.

Lemma quiet_set_calls c : preserves quiet (modify (E:=exn) (set_calls c)).
Proof. intros w. done. Qed.

(** [final_kwargs] changes nothing but the heap. *)
Lemma final_kwargs_only_heap kw w :
  exists h, (final_kwargs kw w).2 = set_heap h w.
Proof.
  unfold final_kwargs.
  destruct (kw_env kw) as [extra_env|]; simpl.
  2:{ exists (heap w). unfold bind, ret. simpl.
      destruct (kw_cwd kw); by destruct w. }
  unfold bind, copy, update, read, write, gets, modify, ret, bind. simpl.
  destruct extra_env as [|n]; simpl.
  - rewrite list_lookup_middle by done. simpl.
    rewrite decide_True by (rewrite length_app; simpl; lia). simpl.
    eexists. destruct (kw_cwd kw); simpl; reflexivity.
  - destruct ((heap w ++ [os_environ w]) !! n) as [d|] eqn:Hn; simpl.
    + rewrite list_lookup_middle by done. simpl.
      rewrite decide_True by (rewrite length_app; simpl; lia). simpl.
      eexists. destruct (kw_cwd kw); simpl; reflexivity.
    + eexists. reflexivity.
Qed.

Lemma quiet_final_kwargs kw : preserves quiet (final_kwargs kw).
Proof.
  intros w. destruct (final_kwargs_only_heap kw w) as [h ->]. by split.
Qed.

Create HintDb quiet discriminated.
#[local] Hint Resolve quiet_logger_debug quiet_read quiet_set_calls
  quiet_final_kwargs : quiet.

Ltac quiet_step :=
  first
    [ solve [auto with quiet]
    | apply preserves_ret; apply _
    | apply preserves_raise; apply _
    | apply preserves_gets; apply _
    | apply preserves_for_each; [apply _|intro]
    | apply preserves_bind; [apply _| |intro] ].

Lemma quiet__log_command args : preserves quiet (_log_command args).
Proof. unfold _log_command. repeat quiet_step. Qed.

Lemma quiet__log_environment env : preserves quiet (_log_environment env).
Proof.
  unfold _log_environment. quiet_step; [quiet_step|].
  destruct (negb _); [quiet_step|].
  quiet_step; [destruct env|]; repeat quiet_step.
Qed.

Lemma quiet__log_output output : preserves quiet (_log_output output).
Proof. unfold _log_output. destruct (truthy output); repeat quiet_step. Qed.

Lemma quiet__log_return_code code : preserves quiet (_log_return_code code).
Proof. apply quiet_logger_debug. Qed.

Lemma quiet_call {A} m (f : request -> result exn A) argv kw :
  preserves quiet (call m f argv kw).
Proof.
  unfold call. quiet_step; [destruct (kw_env kw); repeat quiet_step|].
  do 2 (quiet_step; [quiet_step|]).
  destruct (f _); quiet_step.
Qed.

#[local] Hint Resolve quiet__log_command quiet__log_environment
  quiet__log_output quiet__log_return_code quiet_call : quiet.

Lemma final_request_same_objects w1 w2 args kw :
  same_objects w1 w2 -> final_request w1 args kw = final_request w2 args kw.
Proof.
  intros [Henv Hheap]. unfold final_request, merged_environment.
  destruct (kw_env kw) as [[|n]|]; simpl; [by rewrite Henv| |done].
  by rewrite Hheap, Henv.
Qed.

Lemma live_same_objects w1 w2 kw :
  same_objects w1 w2 -> live w1 kw -> live w2 kw.
Proof.
  intros [Henv Hheap]. unfold live.
  destruct (kw_env kw) as [[|n]|]; simpl; [eauto| |done].
  by rewrite Hheap.
Qed.

Section Methods.
Variable sp : subprocess_module.

(** X1.  Whichever method is invoked: a working directory that is supplied
    reaches the [subprocess] module in its string form, whatever it was; when
    none is supplied, none is passed; every other keyword argument is passed
    on as it was given. *)
Theorem working_directory_coerced m args kw w :
  live w kw ->
  exists rq,
    calls (world_after sp m args kw w) = calls w ++ [(m, rq)] /\
    rq_cwd rq = (fun cwd => VStr (py_str cwd)) <$> kw_cwd kw /\
    rq_other rq = kw_other kw.
Proof.
  intros Hlive. exists (final_request w args kw).
  split; [by apply calls_world_after|].
  unfold final_request. simpl. by destruct (kw_cwd kw).
Qed.

(** X2.  While debug logging is disabled, no method adds a record to the
    log, whether the command succeeds or fails. *)
Theorem nothing_logged_when_disabled m args kw w :
  debug w = false ->
  log (world_after sp m args kw w) = log w.
Proof.
  intros Hoff.
  assert (quiet w (world_after sp m args kw w)) as [_ Hlog]; [|by apply Hlog].
  destruct m; simpl.
  - assert (preserves quiet (run sp args kw)) as H; [|apply H].
    unfold run. repeat quiet_step.
  - assert (preserves quiet (check_output sp args kw)) as H; [|apply H].
    unfold check_output. repeat quiet_step.
  - assert (preserves quiet (Popen sp args kw)) as H; [|apply H].
    unfold Popen. repeat quiet_step.
Qed.

(** X3.  What a method hands to the [subprocess] module and what it raises do
    not depend on the logger: two worlds with the same mapping objects give
    the same request and the same exception, if any, whether debug logging is
    enabled in one, in both or in none. *)
Theorem logging_does_not_change_the_outcome m args kw w1 w2 :
  live w1 kw ->
  same_objects w1 w2 ->
  raised sp m args kw w1 = raised sp m args kw w2 /\
  exists rq,
    calls (world_after sp m args kw w1) = calls w1 ++ [(m, rq)] /\
    calls (world_after sp m args kw w2) = calls w2 ++ [(m, rq)].
Proof.
  intros Hlive1 Hsame.
  pose proof (live_same_objects _ _ _ Hsame Hlive1) as Hlive2.
  pose proof (final_request_same_objects _ _ args kw Hsame) as Hrq.
  split.
  - by rewrite !raised_world_after, Hrq.
  - exists (final_request w1 args kw). split.
    + by apply calls_world_after.
    + rewrite Hrq. by apply calls_world_after.
Qed.

(** X4.  When [subprocess.run] raises, [run] logs no return code: the records
    it has logged by then are those of the command and of the environment. *)
Theorem run_failure_logs_no_return_code args kw w e :
  live w kw ->
  (run sp args kw w).1 = Raise e ->
  new_lines w (run sp args kw w).2
  = (if debug w then prologue_run w args kw else []) /\
  forall line,
    line ∈ new_lines w (run sp args kw w).2 -> is_return_code_line line = false.
Proof.
  intros Hlive. rewrite run_eq by done. cbv zeta.
  destruct (sp_run sp (final_request w args kw)) as [r|e']; cbn [fst snd]; [done|].
  intros _.
  assert (new_lines w (at_call MRun (prologue_run w args kw) args kw w)
          = if debug w then prologue_run w args kw else []) as ->.
  { unfold new_lines. by rewrite log_at_call, log_logged, drop_app_length. }
  split; [done|].
  intros line. destruct (debug w); [|by intros ?%elem_of_nil].
  unfold prologue_run.
  intros [?|[?|Hin]%elem_of_app]%elem_of_app;
    eauto using no_return_code_in_command_lines,
                no_return_code_in_environment_lines.
  by apply list_elem_of_singleton in Hin as ->.
Qed.


(** X6.  Whichever method is invoked with an override, when the keys of the
    ambient environment are distinct and those of the override are: the keys
    of the environment handed to the [subprocess] module are distinct; they
    are the ambient keys, in the order of the ambient environment, followed
    by the keys that only the override has, in the order of the override. *)
Theorem merged_environment_keeps_ambient_order m args kw w r override :
  kw_env kw = Some r ->
  deref w r = Some override ->
  dict_wf (os_environ w) ->
  dict_wf override ->
  exists rq env,
    calls (world_after sp m args kw w) = calls w ++ [(m, rq)] /\
    rq_env rq = Some env /\
    dict_wf env /\
    env.*1 = (os_environ w).*1
               ++ filter (fun k => k ∉ (os_environ w).*1) override.*1.
Proof.
  intros Henv Hoverride Hambient Hwf.
  assert (live w kw) as Hlive by (unfold live; rewrite Henv; eauto).
  exists (final_request w args kw), (dict_update (os_environ w) override).
  split_and!.
  - by apply calls_world_after.
  - unfold final_request, merged_environment. simpl.
    rewrite Henv. simpl. by rewrite Hoverride.
  - by apply dict_update_wf.
  - by apply dict_update_keys.
Qed.

End Methods.

(** X7.  With debug logging enabled, [_log_environment] called without an
    override, or with an override that is empty, logs the ambient
    environment: the header, then one record for each variable, in order. *)
Theorem empty_override_logs_ambient_environment env w :
  debug w = true ->
  env = None \/ (exists r, env = Some r /\ deref w r = Some []) ->
  _log_environment env w
  = (Ok tt, set_log (log w ++ environment_lines (os_environ w)) w).
Proof.
  intros Hdebug Henv.
  pose proof (_log_environment_eq (Kwargs env None ∅) w) as Heq.
  simpl in Heq. rewrite Heq.
  - unfold logged, logged_environment. rewrite Hdebug. simpl.
    destruct Henv as [->|(r & -> & Hr)]; simpl; [done|by rewrite Hr].
  - unfold live. simpl.
    destruct Henv as [->|(r & -> & Hr)]; [done|]. rewrite Hr. eauto.
Qed.

(** X8.  [_log_output] given captured bytes: nothing is logged when they are
    empty; otherwise the header and one record are logged, whatever the
    number of line ends among the bytes, because the bytes are logged in
    their [repr] form. *)
Theorem bytes_output_is_one_record b w :
  _log_output (VBytes b) w
  = (Ok tt,
     logged (if String.eqb b ""
             then []
             else ["Command Output:"; String tab (bytes_repr b)]) w).
Proof.
  rewrite _log_output_eq. unfold output_lines. simpl.
  destruct (String.eqb b ""); simpl; [done|].
  by rewrite splitlines_bytes_repr.
Qed.

(** X9.  Finalising keyword arguments that are final already gives the
    same arguments: the environment they refer to has the same entries in
    the same order, and the working directory and the other arguments are
    the same. *)
Theorem final_kwargs_idempotent kw w :
  live w kw ->
  dict_wf (os_environ w) ->
  exists kw1 w1 kw2 w2,
    final_kwargs kw w = (Ok kw1, w1) /\
    final_kwargs kw1 w1 = (Ok kw2, w2) /\
    kw_env kw2 ≫= deref w2 = kw_env kw1 ≫= deref w1 /\
    kw_cwd kw2 = kw_cwd kw1 /\
    kw_other kw2 = kw_other kw1.
Proof.
  intros Hlive Hambient.
  set (kw1 := final_kwargs_value w kw).
  set (w1 := with_merged w kw w).
  assert (os_environ w1 = os_environ w) as Henviron.
  { unfold w1, with_merged. by destruct (merged_environment w kw). }
  assert (kw_env kw1 ≫= deref w1 = merged_environment w kw) as Hfirst.
  { unfold kw1, w1, final_kwargs_value, with_merged, merged_environment, live in *.
    destruct (kw_env kw) as [r|]; simpl; [|done].
    destruct Hlive as [d Hd]. rewrite Hd. simpl.
    by rewrite list_lookup_middle. }
  assert (live w1 kw1) as Hlive1.
  { unfold kw1, w1, final_kwargs_value, with_merged, merged_environment, live in *.
    destruct (kw_env kw) as [r|]; simpl; [|done].
    destruct Hlive as [d Hd]. rewrite Hd. simpl.
    rewrite list_lookup_middle by done. eauto. }
  exists kw1, w1, (final_kwargs_value w1 kw1), (with_merged w1 kw1 w1).
  split_and!.
  - by apply final_kwargs_eq.
  - by apply final_kwargs_eq.
  - rewrite Hfirst.
    unfold final_kwargs_value at 1. unfold with_merged.
    unfold merged_environment at 1 2. rewrite Hfirst, Henviron.
    unfold merged_environment in *.
    destruct (kw_env kw ≫= deref w) as [d|] eqn:Hd.
    + destruct (kw_env kw1) as [r1|] eqn:Hr1; [|done].
      simpl. rewrite list_lookup_middle by done.
      by rewrite dict_update_idempotent.
    + destruct (kw_env kw1) as [r1|] eqn:Hr1; [|done].
      unfold kw1, final_kwargs_value in Hr1. simpl in Hr1.
      unfold live in Hlive.
      destruct (kw_env kw) as [r|]; [|done].
      destruct Hlive as [d Hr]. simpl in Hd. by rewrite Hr in Hd.
  - unfold kw1, final_kwargs_value. simpl. by destruct (kw_cwd kw).
  - done.
Qed.

(** *** Concrete invocations *)

(** The sample world with debug logging disabled and an earlier record in the
    log. *)
Definition silent_world : world :=
  World [("PATH", "/bin")] [[("FOO", "bar")]] false ["an earlier record"] [].

Lemma sample_and_silent : same_objects sample_world silent_world.
Proof. split; reflexivity. Defined.

Lemma sample_ambient_wf : dict_wf (os_environ sample_world).
Proof. unfold dict_wf. simpl. apply NoDup_singleton. Defined.

Lemma sample_override_wf : dict_wf [("FOO", "bar")].
Proof. unfold dict_wf. simpl. apply NoDup_singleton. Defined.

Lemma working_directory_coerced_witness :
  exists rq,
    calls (world_after (succeeding "hello") MCheckOutput sample_args
             sample_kwargs sample_world)
    = calls sample_world ++ [(MCheckOutput, rq)] /\
    rq_cwd rq = (fun cwd => VStr (py_str cwd)) <$> kw_cwd sample_kwargs /\
    rq_other rq = kw_other sample_kwargs.
Proof.
  exact (working_directory_coerced (succeeding "hello") MCheckOutput
           sample_args sample_kwargs sample_world sample_live).
Defined.

Lemma nothing_logged_when_disabled_witness :
  log (world_after (succeeding "hello") MRun sample_args sample_kwargs
         silent_world)
  = log silent_world.
Proof.
  exact (nothing_logged_when_disabled (succeeding "hello") MRun sample_args
           sample_kwargs silent_world eq_refl).
Defined.

Lemma logging_does_not_change_the_outcome_witness :
  raised failing MRun sample_args sample_kwargs sample_world
  = raised failing MRun sample_args sample_kwargs silent_world /\
  exists rq,
    calls (world_after failing MRun sample_args sample_kwargs sample_world)
    = calls sample_world ++ [(MRun, rq)] /\
    calls (world_after failing MRun sample_args sample_kwargs silent_world)
    = calls silent_world ++ [(MRun, rq)].
Proof.
  exact (logging_does_not_change_the_outcome failing MRun sample_args
           sample_kwargs sample_world silent_world sample_live
           sample_and_silent).
Defined.

Lemma run_failure_logs_no_return_code_witness :
  new_lines sample_world
    (run failing sample_args sample_kwargs sample_world).2
  = (if debug sample_world
     then prologue_run sample_world sample_args sample_kwargs
     else []) /\
  forall line,
    line ∈ new_lines sample_world
             (run failing sample_args sample_kwargs sample_world).2 ->
    is_return_code_line line = false.
Proof.
  exact (run_failure_logs_no_return_code failing sample_args sample_kwargs
           sample_world not_found sample_live eq_refl).
Defined.


Lemma merged_environment_keeps_ambient_order_witness :
  exists rq env,
    calls (world_after (succeeding "hello") MRun sample_args sample_kwargs
             sample_world)
    = calls sample_world ++ [(MRun, rq)] /\
    rq_env rq = Some env /\
    dict_wf env /\
    env.*1 = (os_environ sample_world).*1
               ++ filter (fun k => k ∉ (os_environ sample_world).*1)
                    [("FOO", "bar")].*1.
Proof.
  exact (merged_environment_keeps_ambient_order (succeeding "hello") MRun
           sample_args sample_kwargs sample_world (RObj 0) [("FOO", "bar")]
           eq_refl eq_refl sample_ambient_wf sample_override_wf).
Defined.

Lemma empty_override_logs_ambient_environment_witness :
  _log_environment None sample_world
  = (Ok tt,
     set_log (log sample_world ++ environment_lines (os_environ sample_world))
       sample_world).
Proof.
  exact (empty_override_logs_ambient_environment None sample_world eq_refl
           (or_introl eq_refl)).
Defined.

Lemma final_kwargs_idempotent_witness :
  exists kw1 w1 kw2 w2,
    final_kwargs sample_kwargs sample_world = (Ok kw1, w1) /\
    final_kwargs kw1 w1 = (Ok kw2, w2) /\
    kw_env kw2 ≫= deref w2 = kw_env kw1 ≫= deref w1 /\
    kw_cwd kw2 = kw_cwd kw1 /\
    kw_other kw2 = kw_other kw1.
Proof.
  exact (final_kwargs_idempotent sample_kwargs sample_world sample_live
           sample_ambient_wf).
Defined.

End SubprocessMore.


(** ** More on the publish command *)

Module PublishMore.
Import PyFacts Publish PublishFacts.

Section PublishCommand.
Variable BaseConfig : Type.
Variable name : BaseConfig -> string.
Variable binary_path : BaseConfig -> string.
Variable verify_tools : Cmd unit.
Variable channel : string.

Lemma first_unbuilt_middle fs (before after : list (string * BaseConfig)) item :
  (forall x, x ∈ before -> binary_path x.2 ∈ fs) ->
  binary_path item.2 ∉ fs ->
  first_unbuilt binary_path fs (before ++ item :: after) = Some item.1.
Proof.
  intros Hbefore Hitem. induction before as [|x before IH]; simpl.
  - by rewrite bool_decide_eq_false_2.
  - rewrite bool_decide_eq_true_2 by (apply Hbefore; left).
    apply IH. intros y Hy. apply Hbefore. by right.
Qed.



(** X10.  When the verification of the tools returns, the app that the error
    names in its message is the first one, in the order of the dictionary of
    apps, whose binary is missing: the apps before it are built, and the
    apps after it are not looked at. *)
Theorem error_names_first_unbuilt_app before app_name app after w w1 :
  verify_tools w = (Ok tt, w1) ->
  (forall item, item ∈ before -> binary_path item.2 ∈ files w1) ->
  binary_path app ∉ files w1 ->
  __call__ name binary_path verify_tools
    (before ++ (app_name, app) :: after) channel w
  = (Raise (BriefcaseCommandError
              ("Application " +:+ app_name
                 +:+ " has not been built. Build (and test!) the app before publishing.")),
     w1).
Proof.
  intros Hverify Hbefore Happ. unfold __call__.
  erewrite bind_ok by exact Hverify.
  erewrite bind_raise; [reflexivity|].
  rewrite (check_loop_eq BaseConfig binary_path).
  rewrite (first_unbuilt_middle _ before after (app_name, app)) by done.
  reflexivity.
Qed.


End PublishCommand.

Lemma error_names_first_unbuilt_app_witness :
  __call__ id binary_of (ret tt)
    ([("zebra", "zebra")] ++ ("alpha", "alpha") :: [("beta", "beta")])
    "s3" zebra_built
  = (Raise (BriefcaseCommandError
              "Application alpha has not been built. Build (and test!) the app before publishing."),
     zebra_built).
Proof.
  apply (error_names_first_unbuilt_app string id binary_of (ret tt) "s3"
           [("zebra", "zebra")] "alpha" "alpha" [("beta", "beta")]
           zebra_built zebra_built eq_refl).
  - intros item Hin. apply list_elem_of_singleton in Hin as ->.
    apply (bool_decide_unpack _). vm_compute. exact I.
  - apply (bool_decide_unpack _). vm_compute. exact I.
Defined.


End PublishMore.
